(** * aws-utils: the memoizing AWS client factory and the region constants

    A shallow embedding of
    - [packages/aws-common-utils/src/constants.ts] (the [REGIONS] list), and
    - [packages/aws-client-factory/src/factory.ts] ([createClientFactory],
      [createClientCache], [useGlobalConfigClock]),
    followed by the properties of the specification that concern them.

    The factory is glue over three third-party packages.  Their behaviour
    is part of the embedding and is written down explicitly:
    - [json-stable-stringify]: the function [stableStringify] below,
    - [lodash/memoize]: the cache lookup in [call],
    - [aws-sdk]: the client constructors are parameters of the development
      (Section [Factory]); the global [AWS.config] object is a record.

    JavaScript objects used as option mappings are association lists in
    insertion order (a well-formed object has pairwise distinct keys);
    JavaScript [Map]s and objects used as dictionaries are [gmap]s; client
    instances live in a heap and are compared by reference. *)

From Stdlib Require Import ZArith Ascii String List Permutation Sorted Lia.
From stdpp Require Import base option list strings pretty gmap fin_maps.

Open Scope string_scope.
Open Scope list_scope.

#[local] Set Warnings "-register-all".

(** ** Constants module *)

Module Constants.

Definition SERVICE_PRINCIPALS : list (string * string) :=
  [("sns", "sns.amazonaws.com")].

Definition REGIONS : list string :=
  [ "us-east-1";
    "us-east-2";
    "us-west-2";
    "us-west-1";
    "ca-central-1";
    "sa-east-1";
    "amazonaws-us-gov";
    "eu-west-1";
    "eu-west-2";
    "eu-west-3";
    "eu-central-1";
    "ap-southeast-1";
    "ap-northeast-1";
    "ap-northeast-3";
    "ap-southeast-2";
    "ap-northeast-2";
    "ap-south-1";
    "cn-north-1";
    "cn-northwest-1" ].

End Constants.

(** ** JavaScript values and option mappings *)

(** The values an option mapping can hold.  Numbers are the integer-valued
    ones (printed in decimal); a function value is opaque and identified by
    a tag. *)
Inductive jsval : Type :=
| JUndefined
| JNull
| JBool (b : bool)
| JNum (n : Z)
| JStr (s : string)
| JFunction (id : nat)
| JArr (items : list jsval)
| JObj (props : list (string * jsval)).

(** An object literal: own enumerable properties in insertion order. *)
Abbreviation jsobj := (list (string * jsval)).

(** A well-formed object has each key once. *)
Definition obj_wf (o : jsobj) : Prop := NoDup (map fst o).

(** [o[k]]: [None] when [k] is not an own property. *)
Fixpoint obj_get (k : string) (o : jsobj) : option jsval :=
  match o with
  | [] => None
  | (k', v) :: rest => if String.eqb k' k then Some v else obj_get k rest
  end.

(** [o[k] = v]: overwrite in place, or append a new property. *)
Fixpoint obj_set (k : string) (v : jsval) (o : jsobj) : jsobj :=
  match o with
  | [] => [(k, v)]
  | (k', v') :: rest =>
      if String.eqb k' k then (k', v) :: rest else (k', v') :: obj_set k v rest
  end.

(** Object spread [{ ...target, ...src }] onto an already built [target]:
    the properties of [src] are assigned in order. *)
Definition spread (target src : jsobj) : jsobj :=
  fold_left (fun acc kv => obj_set (fst kv) (snd kv) acc) src target.

(** An argument that may be absent: spreading [undefined] copies nothing. *)
Definition spread_arg (target : jsobj) (src : option jsobj) : jsobj :=
  match src with
  | None => target
  | Some o => spread target o
  end.

(** ** json-stable-stringify *)

Definition dquote : ascii := ascii_of_nat 34.
Definition backslash : ascii := ascii_of_nat 92.

Definition hex_digit (n : nat) : ascii :=
  match String.get n "0123456789abcdef" with
  | Some c => c
  | None => "0"%char
  end.

(** [JSON.stringify] on one character of a string. *)
Definition escape_char (c : ascii) : string :=
  let n := nat_of_ascii c in
  if Nat.eqb n 34 then String backslash (String dquote EmptyString)
  else if Nat.eqb n 92 then String backslash (String backslash EmptyString)
  else if Nat.eqb n 8 then String backslash "b"
  else if Nat.eqb n 9 then String backslash "t"
  else if Nat.eqb n 10 then String backslash "n"
  else if Nat.eqb n 12 then String backslash "f"
  else if Nat.eqb n 13 then String backslash "r"
  else if Nat.ltb n 32 then
    String backslash
      ("u00" +:+ String (hex_digit (n / 16)) (String (hex_digit (n mod 16)) EmptyString))
  else String c EmptyString.

Fixpoint escape (s : string) : string :=
  match s with
  | EmptyString => EmptyString
  | String c rest => escape_char c +:+ escape rest
  end.

(** [JSON.stringify] on a string. *)
Definition quote (s : string) : string :=
  String dquote (escape s +:+ String dquote EmptyString).

(** [keys.sort()]: insertion by the default order on strings, carried
    out on the rendered properties. *)
Fixpoint insert_by_key {A : Type} (kv : string * A) (l : list (string * A))
  : list (string * A) :=
  match l with
  | [] => [kv]
  | kv' :: rest =>
      if String.leb (fst kv) (fst kv') then kv :: kv' :: rest
      else kv' :: insert_by_key kv rest
  end.

Definition sort_by_key {A : Type} (l : list (string * A)) : list (string * A) :=
  fold_right insert_by_key [] l.

(** The [out] array of an object: properties whose value renders to
    [undefined] are skipped. *)
Fixpoint object_out (rendered : list (string * option string)) : list string :=
  match rendered with
  | [] => []
  | (k, None) :: rest => object_out rest
  | (k, Some value) :: rest => (quote k +:+ ":" +:+ value) :: object_out rest
  end.

(** The recursive [stringify] of json-stable-stringify with its default
    options (no [space], no [cmp], no [replacer]); [None] is [undefined].
    The values of an object are rendered before the keys are sorted, which
    gives the same text as rendering them in sorted order. *)
Fixpoint stringify (node : jsval) : option string :=
  match node with
  | JUndefined => None
  | JFunction _ => None
  | JNull => Some "null"
  | JBool b => Some (if b then "true" else "false")
  | JNum n => Some (pretty n)
  | JStr s => Some (quote s)
  | JArr items =>
      Some ("[" +:+
            String.concat "," (map (fun x => default "null" (stringify x)) items)
            +:+ "]")
  | JObj props =>
      Some ("{" +:+
            String.concat ","
              (object_out
                 (sort_by_key
                    (map (fun kv => let '(k, v) := kv in (k, stringify v)) props)))
            +:+ "}")
  end.

(** The memoization key: [stableStringify(opts)].  A call without an
    argument has [opts === undefined], whose serialization is [undefined]. *)
Definition stableStringify (opts : option jsobj) : option string :=
  match opts with
  | None => None
  | Some o => stringify (JObj o)
  end.


(** ** aws-sdk: classes, heap objects and the global configuration *)

(** The SDK classes the factory instantiates, and [AWS.Config]. *)
Inductive AWSClass : Type :=
| S3 | DynamoDB | DocumentClient | DynamoDBStreams | IAM | Iot | STS | SNS
| SQS | SES | KMS | Lambda | IotData | XRay | APIGateway | CloudWatch
| CloudWatchLogs | CloudFormation
| Config.

Global Instance AWSClass_eq_dec : EqDecision AWSClass.
Proof. solve_decision. Defined.

(** Object references: positions in the heap. *)
Abbreviation ref := nat.

(** The property [systemClockOffset] of an object: an ordinary value, or
    the accessor pair installed by [useGlobalConfigClock], whose getter and
    setter go to [AWS.config.systemClockOffset].  Property attributes are
    not tracked: the SDK keeps [systemClockOffset] as an ordinary
    (configurable) property, so redefining it always succeeds. *)
Inductive clock_property : Type :=
| OwnValue (v : jsval)
| GlobalClockAccessor.

(** A heap object, reduced to what the factory looks at: its class (for
    [instanceof]), the fields [service] and [config], and the property
    [systemClockOffset].  An absent field is [undefined]. *)
Record object : Type := {
  obj_class : AWSClass;
  obj_service : option ref;
  obj_config : option ref;
  obj_systemClockOffset : option clock_property
}.

(** The process-wide [AWS.config]: the arguments of the [update] calls
    made so far, in order, and the property [systemClockOffset]. *)
Record AWSConfig : Type := {
  update_calls : list jsobj;
  systemClockOffset : jsval
}.

(** The process state: the heap, [AWS.config], and the trace of the
    invocations [factories[serviceName](arg)] (service name and argument). *)
Record World : Type := {
  heap : list object;
  AWS_config : AWSConfig;
  constructions : list (string * jsobj)
}.

Definition set_heap (h : list object) (w : World) : World :=
  {| heap := h; AWS_config := AWS_config w; constructions := constructions w |}.

Definition set_AWS_config (c : AWSConfig) (w : World) : World :=
  {| heap := heap w; AWS_config := c; constructions := constructions w |}.

Definition log_construction (serviceName : string) (arg : jsobj) (w : World) : World :=
  {| heap := heap w; AWS_config := AWS_config w;
     constructions := constructions w ++ [(serviceName, arg)] |}.

(** [new]: the object gets the next free reference. *)
Definition alloc (o : object) (w : World) : ref * World :=
  (length (heap w), set_heap (heap w ++ [o]) w).

(** [AWS.config.update(options)].  A [systemClockOffset] among the options
    is assigned ([undefined] restores the SDK default 0). *)
Definition AWS_config_update (options : jsobj) (c : AWSConfig) : AWSConfig :=
  {| update_calls := update_calls c ++ [options];
     systemClockOffset :=
       match obj_get "systemClockOffset" options with
       | Some JUndefined => JNum 0
       | Some v => v
       | None => systemClockOffset c
       end |}.

(** What was thrown: a value thrown by the SDK, or the engine's TypeError
    (calling [undefined], reading a property of [undefined]). *)
Inductive thrown : Type :=
| Thrown (e : jsval)
| TypeError.

Inductive completion (A : Type) : Type :=
| Normal (a : A)
| Throw (e : thrown).
Arguments Normal {A} a.
Arguments Throw {A} e.

(** [obj.systemClockOffset] *)
Definition read_systemClockOffset (r : ref) (w : World) : jsval :=
  match heap w !! r with
  | Some o =>
      match obj_systemClockOffset o with
      | Some (OwnValue v) => v
      | Some GlobalClockAccessor => systemClockOffset (AWS_config w)
      | None => JUndefined
      end
  | None => JUndefined
  end.

Definition set_clock (p : clock_property) (o : object) : object :=
  {| obj_class := obj_class o; obj_service := obj_service o;
     obj_config := obj_config o; obj_systemClockOffset := Some p |}.

(** [AWS.config.systemClockOffset = value] *)
Definition write_global_clock (value : jsval) (w : World) : World :=
  set_AWS_config
    {| update_calls := update_calls (AWS_config w); systemClockOffset := value |} w.

(** [obj.systemClockOffset = value] *)
Definition write_systemClockOffset (r : ref) (value : jsval) (w : World) : World :=
  match heap w !! r with
  | Some o =>
      match obj_systemClockOffset o with
      | Some GlobalClockAccessor => write_global_clock value w
      | _ => set_heap (<[r := set_clock (OwnValue value) o]> (heap w)) w
      end
  | None => w
  end.

(** ** factory.ts: useGlobalConfigClock *)

Definition useGlobalConfigClock (service : ref) (w : World) : completion unit * World :=
  match heap w !! service with
  | None => (Throw TypeError, w)
  | Some o =>
      (* if (service instanceof AWS.DynamoDB.DocumentClient) service = service.service *)
      let unwrapped :=
        if decide (obj_class o = DocumentClient)
        then obj_service o ≫= (fun inner => heap w !! inner)
        else Some o in
      match unwrapped with
      | None => (Throw TypeError, w)       (* [service.config] on [undefined] *)
      | Some target =>
          match obj_config target with
          | None => (Normal tt, w)          (* if (!service.config) return *)
          | Some config =>
              match heap w !! config with
              | None => (Throw TypeError, w)
              | Some c =>
                  (Normal tt,
                   set_heap (<[config := set_clock GlobalClockAccessor c]> (heap w)) w)
              end
          end
      end
  end.

(** ** factory.ts: the factory and the cache *)

Record CreateClientsFactoryOpts : Type := {
  opt_defaults : option jsobj;
  opt_useGlobalConfigClock : option bool
}.

(** The [factories] table: service name and the class it instantiates. *)
Definition factories : list (string * AWSClass) :=
  [ ("s3", S3);
    ("dynamodb", DynamoDB);
    ("documentclient", DocumentClient);
    ("dynamodbstreams", DynamoDBStreams);
    ("iam", IAM);
    ("iot", Iot);
    ("sts", STS);
    ("sns", SNS);
    ("sqs", SQS);
    ("ses", SES);
    ("kms", KMS);
    ("lambda", Lambda);
    ("iotdata", IotData);
    ("xray", XRay);
    ("apigateway", APIGateway);
    ("cloudwatch", CloudWatch);
    ("cloudwatchlogs", CloudWatchLogs);
    ("cloudformation", CloudFormation) ].

Definition serviceNames : list string := map fst factories.

Fixpoint class_of (serviceName : string) (table : list (string * AWSClass))
  : option AWSClass :=
  match table with
  | [] => None
  | (name, cls) :: rest =>
      if String.eqb name serviceName then Some cls else class_of serviceName rest
  end.

(** The cache of one memoized function (lodash keeps a [Map] from the
    resolver's result to the memoized value). *)
Abbreviation memo_cache := (gmap (option string) ref).

(** What the closures of a factory hold: the options it was created with
    and one cache per memoized function. *)
Record ClientFactory : Type := {
  clientsOpts : CreateClientsFactoryOpts;
  memoized : gmap string memo_cache
}.

(** The object returned by [createClientCache]. *)
Record ClientCache : Type := {
  factory : ClientFactory;
  instantiated : gmap string ref
}.

(** The result of reading a property of the cache object; [PAbsent] when
    the object has no property of that name (the read gives [undefined]).
    Own properties are modelled; the members every object inherits from
    [Object.prototype] are left out, here and for the factory. *)
Inductive cache_property : Type :=
| PClient (client : ref)
| PFactory (f : ClientFactory)
| PInstantiated (m : gmap string ref)
| PAbsent.

(** What a constructor of the SDK does with its argument: it throws, or it
    builds a service object, with a config object holding the given
    [systemClockOffset] or without one. *)
Inductive construction : Type :=
| Throws (e : jsval)
| Builds (config : option jsval).

(** ** Sample inputs

    A constructor model and a few inputs on which the definitions can be
    run; the examples at the end of the file use them. *)

(** Every constructor succeeds and gives its service a config object. *)
Definition sample_sdk (_ : AWSClass) (_ : jsobj) (_ : World) : construction :=
  Builds (Some (JNum 0)).

(** The constructors reject a configuration without a region. *)
Definition strict_sdk (_ : AWSClass) (opts : jsobj) (_ : World) : construction :=
  match obj_get "region" opts with
  | Some (JStr _) => Builds (Some (JNum 0))
  | _ => Throws (JStr "ConfigError: Missing region in config")
  end.

Definition empty_world : World :=
  {| heap := [];
     AWS_config := {| update_calls := []; systemClockOffset := JNum 0 |};
     constructions := [] |}.

(** A heap with a document client (2) over a DynamoDB service (1) whose
    config (0) holds its own offset, and an S3 service (4) whose config (3)
    is already synced. *)
Definition clock_world : World :=
  {| heap :=
       [ {| obj_class := Config; obj_service := None; obj_config := None;
            obj_systemClockOffset := Some (OwnValue (JNum 5)) |};
         {| obj_class := DynamoDB; obj_service := None; obj_config := Some 0;
            obj_systemClockOffset := None |};
         {| obj_class := DocumentClient; obj_service := Some 1; obj_config := None;
            obj_systemClockOffset := None |};
         {| obj_class := Config; obj_service := None; obj_config := None;
            obj_systemClockOffset := Some GlobalClockAccessor |};
         {| obj_class := S3; obj_service := None; obj_config := Some 3;
            obj_systemClockOffset := None |} ];
     AWS_config := {| update_calls := []; systemClockOffset := JNum 7 |};
     constructions := [] |}.

Definition sample_opts : CreateClientsFactoryOpts :=
  {| opt_defaults := Some [("region", JStr "eu-west-1")];
     opt_useGlobalConfigClock := Some true |}.

Definition no_opts : CreateClientsFactoryOpts :=
  {| opt_defaults := None; opt_useGlobalConfigClock := None |}.

Section Factory.

(** [process.env.AWS_REGION] when the module is loaded. *)
Variable AWS_REGION : option string.

(** The constructors of the SDK: [sdk_new cls opts w] describes
    [new AWS.cls(opts)] in the process state [w]. *)
Variable sdk_new : AWSClass -> jsobj -> World -> construction.

Definition FACTORY_DEFAULTS : jsobj :=
  [("region", match AWS_REGION with Some r => JStr r | None => JUndefined end)].

(** [const { defaults = FACTORY_DEFAULTS } = clientsOpts] *)
Definition defaults (clientsOpts : CreateClientsFactoryOpts) : jsobj :=
  match opt_defaults clientsOpts with
  | Some d => d
  | None => FACTORY_DEFAULTS
  end.

(** A service object of class [cls], with its own config object if the
    constructor makes one. *)
Definition new_service (cls : AWSClass) (config : option jsval) (w : World)
  : ref * World :=
  match config with
  | None =>
      alloc {| obj_class := cls; obj_service := None; obj_config := None;
               obj_systemClockOffset := None |} w
  | Some offset =>
      let '(c, w1) :=
        alloc {| obj_class := Config; obj_service := None; obj_config := None;
                 obj_systemClockOffset := Some (OwnValue offset) |} w in
      alloc {| obj_class := cls; obj_service := None; obj_config := Some c;
               obj_systemClockOffset := None |} w1
  end.

(** [new AWS.cls(opts)].  The objects are new and no existing object is
    changed.  A document client wraps a DynamoDB service object of its own
    in the field [service]. *)
Definition AWS_new (cls : AWSClass) (opts : jsobj) (w : World)
  : completion ref * World :=
  match sdk_new cls opts w with
  | Throws e => (Throw (Thrown e), w)
  | Builds config =>
      if decide (cls = DocumentClient) then
        let '(inner, w1) := new_service DynamoDB config w in
        let '(client, w2) :=
          alloc {| obj_class := DocumentClient; obj_service := Some inner;
                   obj_config := None; obj_systemClockOffset := None |} w1 in
        (Normal client, w2)
      else
        let '(client, w1) := new_service cls config w in
        (Normal client, w1)
  end.

(** [factories[serviceName](arg)] for a service name of the table. *)
Definition factories_call (serviceName : string) (arg : jsobj) (w : World)
  : completion ref * World :=
  match class_of serviceName factories with
  | None => (Throw TypeError, w)
  | Some cls => AWS_new cls arg (log_construction serviceName arg w)
  end.

Definition truthy (b : option bool) : bool :=
  match b with Some true => true | _ => false end.

(** [{ ...defaults, ...opts }] *)
Definition merged_options (copts : CreateClientsFactoryOpts) (opts : option jsobj)
  : jsobj :=
  spread_arg (spread [] (defaults copts)) opts.

(** The function handed to [memoize] for [serviceName]. *)
Definition construct (copts : CreateClientsFactoryOpts) (serviceName : string)
    (opts : option jsobj) (w : World) : completion ref * World :=
  match factories_call serviceName (merged_options copts opts) w with
  | (Throw e, w1) => (Throw e, w1)
  | (Normal client, w1) =>
      if truthy (opt_useGlobalConfigClock copts) then
        match useGlobalConfigClock client w1 with
        | (Throw e, w2) => (Throw e, w2)
        | (Normal _, w2) => (Normal client, w2)
        end
      else (Normal client, w1)
  end.

(** [createClientFactory(clientsOpts)] *)
Definition createClientFactory (copts : CreateClientsFactoryOpts) (w : World)
  : ClientFactory * World :=
  let w1 := set_AWS_config (AWS_config_update (defaults copts) (AWS_config w)) w in
  let memoized :=
    fold_left
      (fun (memFactories : gmap string memo_cache) entry =>
         <[fst entry := (∅ : memo_cache)]> memFactories)
      factories ∅ in
  ({| clientsOpts := copts; memoized := memoized |}, w1).

(** [factory[serviceName](opts)]: the memoized function of lodash with
    the resolver [opts => stableStringify(opts)].  A name that is not a
    property of the factory gives [undefined], and calling it throws. *)
Definition call (f : ClientFactory) (serviceName : string) (opts : option jsobj)
    (w : World) : completion ref * ClientFactory * World :=
  match memoized f !! serviceName with
  | None => (Throw TypeError, f, w)
  | Some cache =>
      let key := stableStringify opts in
      match cache !! key with
      | Some client => (Normal client, f, w)            (* cache.has(key) *)
      | None =>
          match construct (clientsOpts f) serviceName opts w with
          | (Throw e, w1) => (Throw e, f, w1)
          | (Normal client, w1) =>
              (Normal client,
               {| clientsOpts := clientsOpts f;
                  memoized := <[serviceName := <[key := client]> cache]> (memoized f) |},
               w1)
          end
      end
  end.

(** [factory[name]]: whether the factory has the property. *)
Definition factory_has (f : ClientFactory) (name : string) : bool :=
  bool_decide (is_Some (memoized f !! name)).

(** [createClientCache(clientOpts)] *)
Definition createClientCache (copts : CreateClientsFactoryOpts) (w : World)
  : ClientCache * World :=
  let '(factory, w1) := createClientFactory copts w in
  ({| factory := factory; instantiated := ∅ |}, w1).

(** [cache[name]]: the getters defined for the keys of the factory, then
    the two fields assigned afterwards. *)
Definition cache_get (c : ClientCache) (name : string) (w : World)
  : completion cache_property * ClientCache * World :=
  if factory_has (factory c) name then
    (* return (instantiated[method] = factory[method]()) *)
    match call (factory c) name None w with
    | (Throw e, f1, w1) =>
        (Throw e, {| factory := f1; instantiated := instantiated c |}, w1)
    | (Normal client, f1, w1) =>
        (Normal (PClient client),
         {| factory := f1; instantiated := <[name := client]> (instantiated c) |},
         w1)
    end
  else if String.eqb name "factory" then (Normal (PFactory (factory c)), c, w)
  else if String.eqb name "instantiated" then
    (Normal (PInstantiated (instantiated c)), c, w)
  else (Normal PAbsent, c, w).

(** [cache.factory[serviceName](opts)]: the factory of the cache object
    is the one its getters call. *)
Definition cache_factory_call (c : ClientCache) (serviceName : string)
    (opts : option jsobj) (w : World) : completion ref * ClientCache * World :=
  let '(r, f1, w1) := call (factory c) serviceName opts w in
  (r, {| factory := f1; instantiated := instantiated c |}, w1).


(** *** What can happen between two observations *)

(** A call of one of the memoized functions of the factory. *)
Inductive call_step : ClientFactory * World -> ClientFactory * World -> Prop :=
| call_step_intro f w serviceName opts r f' w' :
    call f serviceName opts w = (r, f', w') ->
    call_step (f, w) (f', w').

(** A call, or anything else in the process: the closures of the
    factory are out of its reach and no object is ever freed. *)
Inductive step : ClientFactory * World -> ClientFactory * World -> Prop :=
| step_call s s' : call_step s s' -> step s s'
| step_world f w w' : length (heap w) <= length (heap w') -> step (f, w) (f, w').

(** The same for a cache object: reading a property, calling its
    [factory] field directly, or anything else in the process. *)
Inductive cache_step : ClientCache * World -> ClientCache * World -> Prop :=
| cache_step_get c w name r c' w' :
    cache_get c name w = (r, c', w') -> cache_step (c, w) (c', w')
| cache_step_factory c w serviceName opts r c' w' :
    cache_factory_call c serviceName opts w = (r, c', w') ->
    cache_step (c, w) (c', w')
| cache_step_world c w w' :
    length (heap w) <= length (heap w') -> cache_step (c, w) (c, w').


(** *** Invariant of the memoization caches *)

(** Every cached instance is an allocated object, and no instance is
    cached under two keys. *)
Definition cache_ok (bound : nat) (cache : memo_cache) : Prop :=
  (forall k r, cache !! k = Some r -> r < bound) /\
  (forall k k' r, cache !! k = Some r -> cache !! k' = Some r -> k = k').

Definition factory_ok (f : ClientFactory) (w : World) : Prop :=
  forall serviceName cache,
    memoized f !! serviceName = Some cache -> cache_ok (length (heap w)) cache.

(** The instance memoized for a service under a key. *)
Definition cached (f : ClientFactory) (serviceName : string) (key : option string)
  : option ref :=
  memoized f !! serviceName ≫= (fun cache => cache !! key).



(** The [instantiated] map records instances memoized by the factory
    for the call without argument. *)
Definition instantiated_ok (c : ClientCache) : Prop :=
  forall serviceName a,
    instantiated c !! serviceName = Some a ->
    cached (factory c) serviceName None = Some a.

(** *** Clock sync *)

(** The [systemClockOffset] of the object is the accessor pair of
    [useGlobalConfigClock]. *)
Definition synced (config : ref) (w : World) : Prop :=
  exists c, heap w !! config = Some c /\
            obj_systemClockOffset c = Some GlobalClockAccessor.

(** The property of the object stands for the process-wide offset:
    reading it gives the global value, writing it sets the global value,
    and the written value is what every synced object then reads. *)
Definition shares_global_clock (config : ref) (w : World) : Prop :=
  read_systemClockOffset config w = systemClockOffset (AWS_config w) /\
  forall value,
    read_systemClockOffset config (write_global_clock value w) = value /\
    systemClockOffset (AWS_config (write_systemClockOffset config value w)) = value /\
    forall config',
      synced config' w ->
      read_systemClockOffset config' (write_systemClockOffset config value w) = value.

(** *** The objects behind a client *)

(** The service object behind a client: the object in the field
    [service] for a document client, the client itself otherwise. *)
Definition service_of (client : ref) (w : World) : option object :=
  heap w !! client ≫= fun o =>
    if decide (obj_class o = DocumentClient)
    then obj_service o ≫= fun inner => heap w !! inner
    else Some o.

(** The client is an object of class [cls] over a service object of the
    right class; the config object of the service, if it has one, exists,
    and is synced when [sync] is set. *)
Definition well_built (sync : bool) (cls : AWSClass) (client : ref) (w : World)
  : Prop :=
  exists o target,
    heap w !! client = Some o /\
    obj_class o = cls /\
    service_of client w = Some target /\
    obj_class target = (if decide (cls = DocumentClient) then DynamoDB else cls) /\
    forall config,
      obj_config target = Some config ->
      exists c, heap w !! config = Some c /\
                (sync = true -> obj_systemClockOffset c = Some GlobalClockAccessor).

(** Every memoized instance of the factory is well built. *)
Definition instances_well_built (f : ClientFactory) (w : World) : Prop :=
  forall serviceName key client,
    cached f serviceName key = Some client ->
    exists cls,
      class_of serviceName factories = Some cls /\
      well_built (truthy (opt_useGlobalConfigClock (clientsOpts f))) cls client w.

(** A call, or anything else in the process that allocates objects and
    changes [AWS.config] but leaves the existing objects as they are. *)
Inductive quiet_step : ClientFactory * World -> ClientFactory * World -> Prop :=
| quiet_call s s' : call_step s s' -> quiet_step s s'
| quiet_world f w w' : heap w `prefix_of` heap w' -> quiet_step (f, w) (f, w').

(** Two factories in one process: a call of a memoized function of either,
    or anything else in the process. *)
Inductive pair_step
  : ClientFactory * ClientFactory * World ->
    ClientFactory * ClientFactory * World -> Prop :=
| pair_step_left f g w serviceName opts r f' w' :
    call f serviceName opts w = (r, f', w') ->
    pair_step (f, g, w) (f', g, w')
| pair_step_right f g w serviceName opts r g' w' :
    call g serviceName opts w = (r, g', w') ->
    pair_step (f, g, w) (f, g', w')
| pair_step_world f g w w' :
    length (heap w) <= length (heap w') ->
    pair_step (f, g, w) (f, g, w').

(** No instance is memoized by both factories. *)
Definition disjoint_instances (f g : ClientFactory) : Prop :=
  forall serviceName key a serviceName' key' b,
    cached f serviceName key = Some a ->
    cached g serviceName' key' = Some b ->
    a <> b.

(** ** Properties *)

(** *** Option mappings *)








(** *** The serialization does not depend on the order of the keys *)

Lemma leb_trans (s1 s2 s3 : string) :
  String.leb s1 s2 = true -> String.leb s2 s3 = true -> String.leb s1 s3 = true.
Proof.
  unfold String.leb. revert s2 s3.
  induction s1 as [|c1 s1 IH]; intros [|c2 s2] [|c3 s3]; simpl; try done.
  unfold Ascii.compare.
  destruct (N.compare_spec (N_of_ascii c1) (N_of_ascii c2)) as [E12|L12|G12];
    destruct (N.compare_spec (N_of_ascii c2) (N_of_ascii c3)) as [E23|L23|G23];
    destruct (N.compare_spec (N_of_ascii c1) (N_of_ascii c3)) as [E13|L13|G13];
    try done; try lia.
  apply IH.
Qed.

Lemma leb_true_flip (a b : string) :
  a <> b -> String.leb a b = true -> String.leb b a = false.
Proof.
  intros Hne H1. destruct (String.leb b a) eqn:H2; [|done].
  exfalso. apply Hne. by apply String.leb_antisym.
Qed.

Lemma leb_false_flip (a b : string) :
  String.leb a b = false -> String.leb b a = true.
Proof. intros H1. destruct (String.leb_total a b); congruence. Qed.

Lemma insert_by_key_comm {A : Type} (x y : string * A) (l : list (string * A)) :
  fst x <> fst y ->
  insert_by_key x (insert_by_key y l) = insert_by_key y (insert_by_key x l).
Proof.
  intros Hne.
  pose proof (leb_true_flip _ _ Hne) as Hxy.
  pose proof (leb_false_flip (fst x) (fst y)) as Hyx.
  induction l as [|z l IH]; simpl.
  - destruct (String.leb (fst x) (fst y)) eqn:E.
    + by rewrite (Hxy eq_refl).
    + by rewrite (Hyx eq_refl).
  - destruct (String.leb (fst y) (fst z)) eqn:Eyz;
      destruct (String.leb (fst x) (fst z)) eqn:Exz; simpl;
      rewrite ?Eyz, ?Exz.
    + destruct (String.leb (fst x) (fst y)) eqn:E.
      * by rewrite (Hxy eq_refl), ?Eyz.
      * by rewrite (Hyx eq_refl).
    + destruct (String.leb (fst x) (fst y)) eqn:E.
      * rewrite (leb_trans _ _ _ E Eyz) in Exz. done.
      * by rewrite ?Exz.
    + destruct (String.leb (fst y) (fst x)) eqn:E.
      * rewrite (leb_trans _ _ _ E Exz) in Eyz. done.
      * by rewrite ?Eyz.
    + by rewrite IH.
Qed.

Lemma sort_by_key_perm {A : Type} (l l' : list (string * A)) :
  NoDup (map fst l) -> l ≡ₚ l' -> sort_by_key l = sort_by_key l'.
Proof.
  intros Hnd Hperm. induction Hperm as [|x l l' Hp IH|x y l|l1 l2 l3 H12 IH1 H23 IH2];
    simpl in *.
  - done.
  - apply NoDup_cons in Hnd as [_ Hnd]. by rewrite IH.
  - apply NoDup_cons in Hnd as [Hy _].
    apply insert_by_key_comm. intros Heq. apply Hy. rewrite Heq. left.
  - rewrite IH1 by done. apply IH2. by rewrite <- H12.
Qed.

(** Two object literals with the same properties, listed in any order,
    have the same serialization. *)
Lemma stableStringify_order (A B : jsobj) :
  obj_wf A -> A ≡ₚ B -> stableStringify (Some A) = stableStringify (Some B).
Proof.
  intros Hwf Hperm. simpl.
  set (render := fun kv : string * jsval => let '(k, v) := kv in (k, stringify v)).
  assert (Hsort : sort_by_key (map render A) = sort_by_key (map render B)).
  { apply sort_by_key_perm.
    - rewrite map_map.
      erewrite map_ext; [exact Hwf|]. by intros [k v].
    - by apply Permutation_map. }
  by rewrite Hsort.
Qed.

(** *** Allocation and frame facts of the SDK model *)

Lemma new_service_spec cls config w r w' :
  new_service cls config w = (r, w') ->
  length (heap w) <= r < length (heap w') /\
  AWS_config w' = AWS_config w /\
  constructions w' = constructions w.
Proof.
  unfold new_service, alloc. destruct config; simpl; intros [= <- <-]; simpl;
    rewrite ?length_app; simpl; repeat split; lia.
Qed.

Lemma AWS_new_spec cls opts w r w' :
  AWS_new cls opts w = (r, w') ->
  length (heap w) <= length (heap w') /\
  AWS_config w' = AWS_config w /\
  constructions w' = constructions w /\
  (forall client, r = Normal client ->
                  length (heap w) <= client < length (heap w')) /\
  (forall e, r = Throw e -> w' = w /\ exists v, e = Thrown v /\ sdk_new cls opts w = Throws v).
Proof.
  unfold AWS_new. destruct (sdk_new cls opts w) as [e|config] eqn:Hs.
  - intros [= <- <-]. split_and!; try done.
    intros e' [= <-]. eauto.
  - destruct (decide (cls = DocumentClient)).
    + destruct (new_service DynamoDB config w) as [inner w1] eqn:Hn.
      apply new_service_spec in Hn as (Hr & Hc & Hk).
      unfold alloc. simpl. intros [= <- <-]. simpl. rewrite length_app. simpl.
      split_and!; try done; try lia.
      intros ? [= <-]. lia.
    + destruct (new_service cls config w) as [client w1] eqn:Hn.
      apply new_service_spec in Hn as (Hr & Hc & Hk).
      intros [= <- <-]. split_and!; try done; try lia.
      intros ? [= <-]. lia.
Qed.

Lemma useGlobalConfigClock_frame service w r w' :
  useGlobalConfigClock service w = (r, w') ->
  length (heap w') = length (heap w) /\
  AWS_config w' = AWS_config w /\
  constructions w' = constructions w.
Proof.
  unfold useGlobalConfigClock.
  destruct (heap w !! service) as [o|]; [|by intros [= <- <-]].
  destruct (if decide (obj_class o = DocumentClient)
            then obj_service o ≫= (fun inner => heap w !! inner)
            else Some o) as [target|]; [|by intros [= <- <-]].
  destruct (obj_config target) as [config|]; [|by intros [= <- <-]].
  destruct (heap w !! config) as [c|]; [|by intros [= <- <-]].
  intros [= <- <-]. simpl. by rewrite length_insert.
Qed.

Lemma construct_spec copts serviceName opts w r w' :
  construct copts serviceName opts w = (r, w') ->
  length (heap w) <= length (heap w') /\
  AWS_config w' = AWS_config w /\
  (forall client, r = Normal client ->
                  length (heap w) <= client < length (heap w')) /\
  match class_of serviceName factories with
  | Some _ =>
      constructions w' =
        constructions w ++ [(serviceName, merged_options copts opts)]
  | None => w' = w /\ r = Throw TypeError
  end.
Proof.
  unfold construct, factories_call.
  destruct (class_of serviceName factories) as [cls|];
    [|by intros [= <- <-]].
  destruct (AWS_new cls _ _) as [[client|e] w1] eqn:Hnew;
    apply AWS_new_spec in Hnew as (Hlen & Hcfg & Hlog & Hfresh & _);
    simpl in *.
  - specialize (Hfresh client eq_refl).
    destruct (truthy _).
    + destruct (useGlobalConfigClock client w1) as [[[]|e] w2] eqn:Hclock;
        apply useGlobalConfigClock_frame in Hclock as (Hl2 & Hc2 & Hk2);
        intros [= <- <-]; split_and!; try congruence; try lia;
        try (intros ? [= <-]; lia).
    + intros [= <- <-]. split_and!; congruence.
  - intros [= <- <-]. split_and!; try done.
Qed.

(** *** Facts about the memoized functions *)

Lemma rtc_preserves {A : Type} (R : relation A) (P : A -> Prop) :
  (forall x y, R x y -> P x -> P y) ->
  forall x y, rtc R x y -> P x -> P y.
Proof. intros HR x y Hrtc. induction Hrtc; eauto. Qed.

Lemma memoized_table (table : list (string * AWSClass)) acc serviceName :
  fold_left
    (fun (memFactories : gmap string memo_cache) entry =>
       <[fst entry := (∅ : memo_cache)]> memFactories)
    table acc !! serviceName =
  match class_of serviceName table with
  | Some _ => Some ∅
  | None => acc !! serviceName
  end.
Proof.
  revert acc. induction table as [|[name cls] table IH]; intros acc; simpl; [done|].
  rewrite IH.
  destruct (String.eqb_spec name serviceName) as [->|Hne];
    destruct (class_of serviceName table); try done.
  - by rewrite lookup_insert_eq.
  - by rewrite lookup_insert_ne.
Qed.

(** A new factory has one empty cache per service of the table and no
    other property. *)
Lemma createClientFactory_memoized copts w serviceName :
  memoized (createClientFactory copts w).1 !! serviceName =
  match class_of serviceName factories with
  | Some _ => Some ∅
  | None => None
  end.
Proof.
  unfold createClientFactory. cbn [fst memoized].
  rewrite memoized_table. by destruct (class_of serviceName factories).
Qed.

Lemma class_of_Some serviceName :
  is_Some (class_of serviceName factories) <-> In serviceName serviceNames.
Proof.
  unfold serviceNames. induction factories as [|[name cls] table IH]; simpl.
  - split; [by intros [? ?]|done].
  - destruct (String.eqb_spec name serviceName) as [->|Hne].
    + split; eauto.
    + rewrite IH. split; [by right|]. by intros [?|?].
Qed.

Lemma call_hit f serviceName opts w client :
  cached f serviceName (stableStringify opts) = Some client ->
  call f serviceName opts w = (Normal client, f, w).
Proof.
  unfold cached, call. destruct (memoized f !! serviceName) as [cache|]; [|done].
  simpl. by intros ->.
Qed.

Lemma call_miss f serviceName opts w cache :
  memoized f !! serviceName = Some cache ->
  cache !! stableStringify opts = None ->
  call f serviceName opts w =
    match construct (clientsOpts f) serviceName opts w with
    | (Throw e, w1) => (Throw e, f, w1)
    | (Normal client, w1) =>
        (Normal client,
         {| clientsOpts := clientsOpts f;
            memoized :=
              <[serviceName := <[stableStringify opts := client]> cache]>
                (memoized f) |},
         w1)
    end.
Proof. unfold call. by intros -> ->. Qed.

Lemma call_spec f serviceName opts w r f' w' :
  call f serviceName opts w = (r, f', w') ->
  clientsOpts f' = clientsOpts f /\
  AWS_config w' = AWS_config w /\
  length (heap w) <= length (heap w') /\
  (forall s, is_Some (memoized f' !! s) <-> is_Some (memoized f !! s)) /\
  (forall s k a, cached f s k = Some a -> cached f' s k = Some a) /\
  (forall a, r = Normal a -> cached f' serviceName (stableStringify opts) = Some a) /\
  (factory_ok f w -> factory_ok f' w').
Proof.
  unfold call.
  destruct (memoized f !! serviceName) as [cache|] eqn:Hm;
    [|by intros [= <- <- <-]].
  destruct (cache !! stableStringify opts) as [client|] eqn:Hc.
  { intros [= <- <- <-]. split_and!; try done.
    intros a [= <-]. unfold cached. by rewrite Hm. }
  destruct (construct _ _ _ _) as [[client|e] w1] eqn:Hcons;
    apply construct_spec in Hcons as (Hlen & Hcfg & Hfresh & _);
    intros [= <- <- <-]; simpl.
  - specialize (Hfresh client eq_refl). split_and!; try done.
    + intros s. destruct (decide (serviceName = s)) as [<-|Hne].
      * rewrite lookup_insert_eq, Hm. split; eauto.
      * by rewrite lookup_insert_ne.
    + intros s k a. unfold cached. simpl.
      destruct (decide (serviceName = s)) as [<-|Hne].
      * rewrite lookup_insert_eq, Hm. simpl. intros Hk.
        destruct (decide (stableStringify opts = k)) as [<-|Hnk]; [congruence|].
        by rewrite lookup_insert_ne.
      * by rewrite lookup_insert_ne.
    + intros a [= <-]. unfold cached. simpl.
      rewrite lookup_insert_eq. simpl. by rewrite lookup_insert_eq.
    + intros Hok s cache'. simpl.
      destruct (decide (serviceName = s)) as [<-|Hne].
      * rewrite lookup_insert_eq. intros [= <-].
        destruct (Hok _ _ Hm) as [Hbound Hinj]. split.
        -- intros k r. destruct (decide (stableStringify opts = k)) as [<-|Hnk].
           ++ rewrite lookup_insert_eq. intros [= <-]. lia.
           ++ rewrite lookup_insert_ne by done. intros Hk.
              apply Hbound in Hk. lia.
        -- intros k k' r.
           destruct (decide (stableStringify opts = k)) as [<-|Hnk];
             destruct (decide (stableStringify opts = k')) as [<-|Hnk'];
             rewrite ?lookup_insert_eq, ?lookup_insert_ne by done; try done.
           ++ intros [= <-] Hk'. apply Hbound in Hk'. lia.
           ++ intros Hk [= <-]. apply Hbound in Hk. lia.
           ++ apply Hinj.
      * rewrite lookup_insert_ne by done. intros Hs.
        destruct (Hok _ _ Hs) as [Hbound Hinj]. split; [|done].
        intros k r Hk. apply Hbound in Hk. lia.
  - split_and!; try done.
    intros Hok s cache' Hs. destruct (Hok _ _ Hs) as [Hbound Hinj].
    split; [|done]. intros k r Hk. apply Hbound in Hk. lia.
Qed.

Lemma createClientFactory_ok copts w :
  factory_ok (createClientFactory copts w).1 (createClientFactory copts w).2.
Proof.
  intros serviceName cache. rewrite createClientFactory_memoized.
  destruct (class_of serviceName factories); [|done].
  intros [= <-]. split; intros ?; intros; by rewrite lookup_empty in *.
Qed.

(** What every step keeps: the options of the factory, its property
    names, the invariant of its caches and every memoized instance. *)
Lemma step_spec s s' :
  step s s' ->
  clientsOpts s'.1 = clientsOpts s.1 /\
  length (heap s.2) <= length (heap s'.2) /\
  (forall name, is_Some (memoized s'.1 !! name) <-> is_Some (memoized s.1 !! name)) /\
  (forall name k a, cached s.1 name k = Some a -> cached s'.1 name k = Some a) /\
  (factory_ok s.1 s.2 -> factory_ok s'.1 s'.2).
Proof.
  intros [? ? [f w serviceName opts r f' w' Hcall]|f w w' Hlen]; simpl.
  - apply call_spec in Hcall as (? & ? & ? & ? & ? & ? & ?). done.
  - split_and!; try done.
    intros Hok name cache Hname. destruct (Hok _ _ Hname) as [Hbound Hinj].
    split; [|done]. intros k r Hk. apply Hbound in Hk. lia.
Qed.

Lemma steps_spec s s' :
  rtc step s s' ->
  clientsOpts s'.1 = clientsOpts s.1 /\
  length (heap s.2) <= length (heap s'.2) /\
  (forall name, is_Some (memoized s'.1 !! name) <-> is_Some (memoized s.1 !! name)) /\
  (forall name k a, cached s.1 name k = Some a -> cached s'.1 name k = Some a) /\
  (factory_ok s.1 s.2 -> factory_ok s'.1 s'.2).
Proof.
  induction 1 as [s|s1 s2 s3 Hstep _ IH]; [by split_and!|].
  apply step_spec in Hstep as (Ho & Hl & Hn & Hc & Hk).
  destruct IH as (Ho' & Hl' & Hn' & Hc' & Hk').
  split_and!; [congruence|lia| |auto|auto].
  intros name. by rewrite Hn'.
Qed.

(** Two successful calls for one service, with anything in between,
    give one instance exactly when their keys agree. *)
Lemma same_instance_iff_same_key f1 w1 serviceName A B a fa wa f2 w2 b fb wb :
  factory_ok f1 w1 ->
  call f1 serviceName A w1 = (Normal a, fa, wa) ->
  rtc step (fa, wa) (f2, w2) ->
  call f2 serviceName B w2 = (Normal b, fb, wb) ->
  a = b <-> stableStringify A = stableStringify B.
Proof.
  intros Hok HA Hsteps HB.
  apply call_spec in HA as (_ & _ & _ & _ & _ & Ha & Hoka).
  specialize (Ha a eq_refl). specialize (Hoka Hok).
  apply steps_spec in Hsteps as (_ & _ & _ & Hmono & Hok2). simpl in *.
  apply Hmono in Ha. specialize (Hok2 Hoka).
  unfold cached in Ha.
  destruct (memoized f2 !! serviceName) as [cache|] eqn:Hm; [|done].
  simpl in Ha. destruct (Hok2 _ _ Hm) as [Hbound Hinj].
  destruct (cache !! stableStringify B) as [b'|] eqn:Hb.
  - rewrite (call_hit f2 serviceName B w2 b') in HB
      by (unfold cached; by rewrite Hm).
    injection HB as <- <- <-. split.
    + intros <-. eauto.
    + intros Heq. rewrite Heq in Ha. congruence.
  - rewrite (call_miss _ _ _ _ _ Hm Hb) in HB.
    destruct (construct _ _ _ _) as [[client|e] w3] eqn:Hcons; [|done].
    apply construct_spec in Hcons as (_ & _ & Hfresh & _).
    specialize (Hfresh client eq_refl).
    injection HB as <- <- <-. apply Hbound in Ha as Hlt. split.
    + intros <-. lia.
    + intros Heq. rewrite Heq in Ha. congruence.
Qed.

(** The three ways a call can go: a hit returns the memoized instance
    and touches nothing; a miss invokes the constructor of the service
    once, with the merged options; a name that is not a service throws
    and touches nothing. *)
Lemma call_cases f serviceName opts w r f' w' :
  call f serviceName opts w = (r, f', w') ->
  (exists a, cached f serviceName (stableStringify opts) = Some a /\
             r = Normal a /\ f' = f /\ w' = w) \/
  (cached f serviceName (stableStringify opts) = None /\
   is_Some (memoized f !! serviceName) /\
   is_Some (class_of serviceName factories) /\
   constructions w' =
     constructions w ++ [(serviceName, merged_options (clientsOpts f) opts)]) \/
  (r = Throw TypeError /\ f' = f /\ w' = w /\
   (memoized f !! serviceName = None \/ class_of serviceName factories = None)).
Proof.
  unfold call, cached.
  destruct (memoized f !! serviceName) as [cache|] eqn:Hm; simpl;
    [|intros [= <- <- <-]; right; right; eauto].
  destruct (cache !! stableStringify opts) as [client|] eqn:Hc.
  { intros [= <- <- <-]. left. eauto. }
  destruct (construct _ _ _ _) as [r1 w1] eqn:Hcons.
  apply construct_spec in Hcons as (_ & _ & _ & Hlog).
  destruct (class_of serviceName factories) as [cls|] eqn:Hcls.
  - intros Hr. right. left. split_and!; eauto.
    destruct r1; by injection Hr as <- <- <-.
  - destruct Hlog as [-> ->]. intros [= <- <- <-]. right. right. eauto.
Qed.

(** In a factory made by [createClientFactory], and at any later moment,
    the properties are the service names and the options are those it
    was created with. *)
Lemma reachable_factory copts w f1 w1 :
  rtc step (createClientFactory copts w) (f1, w1) ->
  clientsOpts f1 = copts /\
  (forall name, is_Some (memoized f1 !! name) <->
                is_Some (class_of name factories)) /\
  factory_ok f1 w1.
Proof.
  intros Hreach. apply steps_spec in Hreach as (Ho & _ & Hn & _ & Hok).
  cbn [fst snd] in *. split_and!; [done| |apply Hok, createClientFactory_ok].
  intros name. rewrite Hn, createClientFactory_memoized.
  destruct (class_of name factories); split; intros [? ?]; eauto; done.
Qed.


(** *** The claims about the factory *)

(** C1.  For two calls of the memoized constructor of one service of one
    factory, made at any two moments of the life of the factory and
    returning instances [a] and [b]: [a] and [b] are the same object
    exactly when the two option mappings have the same stable
    serialization; with different serializations the instances are
    distinct.  In particular two well-formed mappings that list the same
    properties in a different order give the same instance. *)
Theorem memoized_same_instance_iff_same_key
    copts w f1 w1 serviceName A B a fa wa f2 w2 b fb wb :
  rtc step (createClientFactory copts w) (f1, w1) ->
  call f1 serviceName A w1 = (Normal a, fa, wa) ->
  rtc step (fa, wa) (f2, w2) ->
  call f2 serviceName B w2 = (Normal b, fb, wb) ->
  (a = b <-> stableStringify A = stableStringify B) /\
  (stableStringify A <> stableStringify B -> a <> b) /\
  (forall A' B', A = Some A' -> B = Some B' -> obj_wf A' -> A' ≡ₚ B' -> a = b).
Proof.
  intros Hreach HA Hmid HB.
  apply steps_spec in Hreach as (_ & _ & _ & _ & Hok). simpl in Hok.
  specialize (Hok (createClientFactory_ok copts w)).
  pose proof (same_instance_iff_same_key _ _ _ _ _ _ _ _ _ _ _ _ _
                Hok HA Hmid HB) as Hiff.
  split_and!; [done|by rewrite Hiff|].
  intros A' B' -> -> Hwf Hperm. apply Hiff. by apply stableStringify_order.
Qed.

(** C2 (amended).  A memoization cache entry is keyed by the stable
    serialization of the per-call options argument alone (an absent
    argument has the key [undefined]), not by that of the configuration
    merged with the defaults: a successful call stores its instance under
    the key of its argument, and any later call whose argument has the
    same serialization hits that entry: it returns the same instance and
    constructs nothing. *)
Theorem cache_entry_keyed_by_call_options
    f1 w1 serviceName A a fa wa f2 w2 B :
  call f1 serviceName A w1 = (Normal a, fa, wa) ->
  rtc step (fa, wa) (f2, w2) ->
  stableStringify B = stableStringify A ->
  cached fa serviceName (stableStringify A) = Some a /\
  call f2 serviceName B w2 = (Normal a, f2, w2).
Proof.
  intros HA Hmid Hkey.
  apply call_spec in HA as (_ & _ & _ & _ & _ & Ha & _).
  specialize (Ha a eq_refl). split; [done|].
  apply steps_spec in Hmid as (_ & _ & _ & Hmono & _). simpl in Hmono.
  apply call_hit. rewrite Hkey. by apply Hmono.
Qed.



(** C9.  A call of the memoized constructor of a service without an
    argument and a call with the empty mapping never return the same
    instance, although the configuration merged for the two is the same
    (the defaults alone): whichever of the two calls finds its key not
    yet memoized invokes the constructor with exactly that mapping. *)
Theorem no_argument_and_empty_mapping_are_distinct
    copts w f1 w1 serviceName A B a fa wa f2 w2 b fb wb :
  (A = None /\ B = Some []) \/ (A = Some [] /\ B = None) ->
  rtc step (createClientFactory copts w) (f1, w1) ->
  call f1 serviceName A w1 = (Normal a, fa, wa) ->
  rtc step (fa, wa) (f2, w2) ->
  call f2 serviceName B w2 = (Normal b, fb, wb) ->
  a <> b /\
  merged_options copts A = spread [] (defaults copts) /\
  merged_options copts B = spread [] (defaults copts) /\
  (cached f1 serviceName (stableStringify A) = None ->
   constructions wa =
     constructions w1 ++ [(serviceName, spread [] (defaults copts))]) /\
  (cached f2 serviceName (stableStringify B) = None ->
   constructions wb =
     constructions w2 ++ [(serviceName, spread [] (defaults copts))]).
Proof.
  intros HAB Hreach HA Hmid HB.
  pose proof (reachable_factory _ _ _ _ Hreach) as (Hopts & _ & Hok).
  pose proof (same_instance_iff_same_key _ _ _ _ _ _ _ _ _ _ _ _ _
                Hok HA Hmid HB) as Hiff.
  assert (Hopts2 : clientsOpts f2 = copts).
  { apply call_spec in HA as (Ho & _).
    apply steps_spec in Hmid as (Ho' & _). simpl in *. congruence. }
  assert (HmA : merged_options copts A = spread [] (defaults copts))
    by (by destruct HAB as [[-> ->]|[-> ->]]).
  assert (HmB : merged_options copts B = spread [] (defaults copts))
    by (by destruct HAB as [[-> ->]|[-> ->]]).
  split_and!; try done.
  - rewrite Hiff. by destruct HAB as [[-> ->]|[-> ->]].
  - intros Hmiss.
    apply call_cases in HA as [(? & ? & _)|[(_ & _ & _ & Hlog)|(? & _)]];
      [congruence| |done].
    by rewrite Hlog, Hopts, HmA.
  - intros Hmiss.
    apply call_cases in HB as [(? & ? & _)|[(_ & _ & _ & Hlog)|(? & _)]];
      [congruence| |done].
    by rewrite Hlog, Hopts2, HmB.
Qed.

(** *** The claims about clock sync, failures and the cache *)

Lemma synced_shares_global_clock config w :
  synced config w -> shares_global_clock config w.
Proof.
  intros (c & Hc & Hacc). unfold shares_global_clock.
  unfold read_systemClockOffset, write_systemClockOffset.
  rewrite Hc, Hacc. split; [done|]. intros value. simpl.
  rewrite Hc, Hacc. split_and!; try done.
  intros config' (c' & Hc' & Hacc'). by rewrite Hc', Hacc'.
Qed.




Lemma factory_has_spec f name :
  factory_has f name = true <-> is_Some (memoized f !! name).
Proof. unfold factory_has. by rewrite bool_decide_eq_true. Qed.

(** Every step of a cache object is a step, or no step, of its factory;
    it keeps the [instantiated] map in line with the factory and never
    changes an entry of the map. *)
Lemma cache_step_spec s s' :
  cache_step s s' ->
  rtc step (factory s.1, s.2) (factory s'.1, s'.2) /\
  (instantiated_ok s.1 ->
   instantiated_ok s'.1 /\
   forall name a, instantiated s.1 !! name = Some a ->
                  instantiated s'.1 !! name = Some a).
Proof.
  intros [c w name r c' w' Hget|c w serviceName opts r c' w' Hcall|c w w' Hlen];
    simpl.
  - unfold cache_get in Hget. destruct (factory_has (factory c) name).
    + destruct (call (factory c) name None w) as [[[client|e] f1] w1] eqn:Hcall;
        injection Hget as <- <- <-; simpl.
      * split; [apply rtc_once, step_call; by econstructor|].
        intros Hok. split.
        -- apply call_spec in Hcall as (_ & _ & _ & _ & Hmono & Hnew & _).
           intros n a. simpl.
           destruct (decide (name = n)) as [<-|Hne].
           ++ rewrite lookup_insert_eq. intros [= <-]. by apply Hnew.
           ++ rewrite lookup_insert_ne by done. intros Hs. by apply Hmono, Hok.
        -- intros n a Hn. destruct (decide (name = n)) as [<-|Hne].
           ++ apply Hok in Hn.
              rewrite (call_hit _ _ None w a Hn) in Hcall.
              injection Hcall as <- _ _. by rewrite lookup_insert_eq.
           ++ by rewrite lookup_insert_ne.
      * split; [apply rtc_once, step_call; by econstructor|].
        apply call_spec in Hcall as (_ & _ & _ & _ & Hmono & _).
        intros Hok. split; [|done]. intros n a Hs. by apply Hmono, Hok.
    + destruct (String.eqb name "factory");
        [|destruct (String.eqb name "instantiated")];
        by injection Hget as <- <- <-.
  - unfold cache_factory_call in Hcall.
    destruct (call (factory c) serviceName opts w) as [[r1 f1] w1] eqn:Hc.
    injection Hcall as <- <- <-. simpl.
    split; [apply rtc_once, step_call; by econstructor|].
    apply call_spec in Hc as (_ & _ & _ & _ & Hmono & _).
    intros Hok. split; [|done]. intros n a Hs. by apply Hmono, Hok.
  - split; [|done]. by apply rtc_once, step_world.
Qed.

Lemma cache_steps_spec s s' :
  rtc cache_step s s' ->
  rtc step (factory s.1, s.2) (factory s'.1, s'.2) /\
  (instantiated_ok s.1 ->
   instantiated_ok s'.1 /\
   forall name a, instantiated s.1 !! name = Some a ->
                  instantiated s'.1 !! name = Some a).
Proof.
  induction 1 as [s|s1 s2 s3 Hstep _ [IH1 IH2]]; [done|].
  apply cache_step_spec in Hstep as [H1 H2].
  split; [by etrans|]. intros Hok.
  destruct (H2 Hok) as [Hok2 Hkeep2]. destruct (IH2 Hok2) as [Hok3 Hkeep3].
  split; [done|]. intros name a Hn. by apply Hkeep3, Hkeep2.
Qed.

Lemma reachable_cache copts w c1 w1 :
  rtc cache_step (createClientCache copts w) (c1, w1) ->
  rtc step (createClientFactory copts w) (factory c1, w1) /\
  instantiated_ok c1.
Proof.
  intros Hreach. apply cache_steps_spec in Hreach as [Hsteps Hok].
  split; [done|]. apply Hok. intros n a. simpl. by rewrite lookup_empty.
Qed.






(** ** Further properties of the factory, the cache and clock sync *)

(** *** What a construction builds *)

Lemma lookup_app_plus {A : Type} (h l : list A) k :
  (h ++ l) !! (length h + k) = l !! k.
Proof. rewrite lookup_app_r by lia. f_equal. lia. Qed.

Lemma lookup_app_here {A : Type} (h l : list A) :
  (h ++ l) !! length h = l !! 0.
Proof. rewrite <- (Nat.add_0_r (length h)) at 1. apply lookup_app_plus. Qed.

Lemma insert_app_here {A : Type} (h l : list A) x :
  <[length h := x]> (h ++ l) = h ++ <[0 := x]> l.
Proof. rewrite insert_app_r_alt by lia. by rewrite Nat.sub_diag. Qed.

Ltac heap_norm :=
  repeat (progress
            (rewrite ?decide_True, ?decide_False by done;
             rewrite ?lookup_app_plus, ?lookup_app_here, ?insert_app_here;
             cbn)).

(** When the constructor of the SDK builds, [construct] returns a client
    that is well built and changes no object that existed before. *)
Lemma construct_builds copts serviceName cls opts w config :
  class_of serviceName factories = Some cls ->
  sdk_new cls (merged_options copts opts)
    (log_construction serviceName (merged_options copts opts) w) = Builds config ->
  exists client w',
    construct copts serviceName opts w = (Normal client, w') /\
    heap w `prefix_of` heap w' /\
    well_built (truthy (opt_useGlobalConfigClock copts)) cls client w' /\
    forall target, service_of client w' = Some target ->
      match config with
      | None => obj_config target = None
      | Some offset =>
          exists c, obj_config target = Some (length (heap w)) /\
                    heap w' !! length (heap w) = Some c /\
                    obj_systemClockOffset c =
                      Some (if truthy (opt_useGlobalConfigClock copts)
                            then GlobalClockAccessor else OwnValue offset)
      end.
Proof.
  intros Hcls Hsdk. unfold construct, factories_call, AWS_new.
  rewrite Hcls, Hsdk.
  destruct (decide (cls = DocumentClient)) as [->|Hne];
    destruct config as [offset|];
    destruct (truthy (opt_useGlobalConfigClock copts)) eqn:Hsync;
    unfold new_service, alloc, useGlobalConfigClock, set_heap; cbn;
    rewrite <- ?app_assoc, ?length_app; cbn [app length];
    heap_norm;
    eexists _, _; (split; [reflexivity|]); cbn [heap];
    (split; [by apply prefix_app_r|]);
    unfold well_built, service_of; cbn [heap]; heap_norm.
  all: split.
  all: try (eexists _, _; split_and!; try reflexivity; heap_norm; try done).
  all: intros ? [= <-]; heap_norm; try done.
  all: eexists; split_and!; try reflexivity; done.
Qed.

Lemma well_built_prefix sync cls client w w' :
  heap w `prefix_of` heap w' ->
  well_built sync cls client w -> well_built sync cls client w'.
Proof.
  intros Hpre (o & target & Ho & Hcls & Htarget & Htcls & Hconfig).
  exists o, target. split_and!; try done.
  - by eapply prefix_lookup_Some.
  - unfold service_of in *. rewrite Ho in Htarget.
    rewrite (prefix_lookup_Some _ _ _ _ Ho Hpre). simpl in *.
    destruct (decide (obj_class o = DocumentClient)); [|done].
    destruct (obj_service o) as [inner|]; [|done]. simpl in *.
    by eapply prefix_lookup_Some.
  - intros config Hc. destruct (Hconfig _ Hc) as (c & Hlook & Hsync).
    exists c. split; [by eapply prefix_lookup_Some|done].
Qed.

(** [construct] returns a client only for a service of the table whose
    constructor builds. *)
Lemma construct_cases copts serviceName opts w r w' :
  construct copts serviceName opts w = (r, w') ->
  (class_of serviceName factories = None /\ r = Throw TypeError /\ w' = w) \/
  (exists cls e,
     class_of serviceName factories = Some cls /\
     sdk_new cls (merged_options copts opts)
       (log_construction serviceName (merged_options copts opts) w) = Throws e /\
     r = Throw (Thrown e) /\
     w' = log_construction serviceName (merged_options copts opts) w) \/
  (exists cls config client,
     class_of serviceName factories = Some cls /\
     sdk_new cls (merged_options copts opts)
       (log_construction serviceName (merged_options copts opts) w) = Builds config /\
     r = Normal client).
Proof.
  intros Hcons.
  destruct (class_of serviceName factories) as [cls|] eqn:Hcls.
  - destruct (sdk_new cls (merged_options copts opts)
                (log_construction serviceName (merged_options copts opts) w))
      as [e|config] eqn:Hsdk.
    + right. left. exists cls, e.
      unfold construct, factories_call, AWS_new in Hcons.
      rewrite Hcls, Hsdk in Hcons. by injection Hcons as <- <-.
    + right. right.
      destruct (construct_builds copts _ _ opts w _ Hcls Hsdk)
        as (client & w2 & Hc & _).
      rewrite Hc in Hcons. injection Hcons as <- <-. by exists cls, config, client.
  - left. unfold construct, factories_call in Hcons. rewrite Hcls in Hcons.
    by injection Hcons as <- <-.
Qed.

Lemma construct_prefix copts serviceName opts w r w' :
  construct copts serviceName opts w = (r, w') -> heap w `prefix_of` heap w'.
Proof.
  intros Hcons.
  destruct (construct_cases _ _ _ _ _ _ Hcons)
    as [(_ & _ & ->)|[(cls & e & _ & _ & _ & ->)|(cls & config & client & Hcls & Hsdk & _)]];
    try done.
  destruct (construct_builds copts _ _ opts w _ Hcls Hsdk) as (c & w2 & Hc & Hpre & _).
  rewrite Hc in Hcons. by injection Hcons as _ <-.
Qed.

Lemma call_prefix f serviceName opts w r f' w' :
  call f serviceName opts w = (r, f', w') -> heap w `prefix_of` heap w'.
Proof.
  unfold call. destruct (memoized f !! serviceName) as [cache|];
    [|by intros [= _ _ <-]].
  destruct (cache !! stableStringify opts); [by intros [= _ _ <-]|].
  destruct (construct _ _ _ _) as [r1 w1] eqn:Hcons.
  apply construct_prefix in Hcons. by destruct r1; intros [= _ _ <-].
Qed.

Lemma call_well_built f serviceName opts w r f' w' :
  call f serviceName opts w = (r, f', w') ->
  instances_well_built f w -> instances_well_built f' w'.
Proof.
  intros Hcall Hwb.
  pose proof (call_prefix _ _ _ _ _ _ _ Hcall) as Hpre.
  pose proof (call_spec _ _ _ _ _ _ _ Hcall) as (Hopts & _).
  assert (Hold : forall s k c, cached f s k = Some c ->
            exists cls, class_of s factories = Some cls /\
              well_built (truthy (opt_useGlobalConfigClock (clientsOpts f'))) cls c w').
  { intros s k c Hc. destruct (Hwb _ _ _ Hc) as (cls & Hcls & Hb).
    exists cls. split; [done|]. rewrite Hopts. by eapply well_built_prefix. }
  unfold call in Hcall.
  destruct (memoized f !! serviceName) as [cache|] eqn:Hm;
    [|injection Hcall as <- <- <-; exact Hold].
  destruct (cache !! stableStringify opts) eqn:Hk;
    [injection Hcall as <- <- <-; exact Hold|].
  destruct (construct _ _ _ _) as [[client|e] w1] eqn:Hcons;
    injection Hcall as <- <- <-; [|exact Hold].
  destruct (construct_cases _ _ _ _ _ _ Hcons)
    as [(_ & ? & _)|[(? & ? & _ & _ & ? & _)|(cls & config & c & Hcls & Hsdk & _)]];
    try done.
  destruct (construct_builds (clientsOpts f) _ _ opts w _ Hcls Hsdk)
    as (c' & w2 & Hc & _ & Hb & _).
  rewrite Hc in Hcons. injection Hcons as <- <-.
  intros s k a. unfold cached. cbn [memoized clientsOpts].
  destruct (decide (serviceName = s)) as [<-|Hne].
  - rewrite lookup_insert_eq. simpl.
    destruct (decide (stableStringify opts = k)) as [<-|Hnk].
    + rewrite lookup_insert_eq. intros [= <-]. eauto.
    + rewrite lookup_insert_ne by done. intros Ha.
      apply (Hold serviceName k a). unfold cached. by rewrite Hm.
  - rewrite lookup_insert_ne by done. intros Ha. by apply (Hold s k a).
Qed.

Lemma quiet_step_is_step s s' : quiet_step s s' -> step s s'.
Proof.
  intros [? ? Hcall|f w w' Hpre]; [by apply step_call|].
  apply step_world. by apply prefix_length.
Qed.

Lemma quiet_steps_are_steps s s' : rtc quiet_step s s' -> rtc step s s'.
Proof.
  induction 1 as [|s1 s2 s3 Hstep _ IH]; [done|].
  eapply rtc_l; [by apply quiet_step_is_step|done].
Qed.

Lemma quiet_steps_well_built s s' :
  rtc quiet_step s s' ->
  instances_well_built s.1 s.2 -> instances_well_built s'.1 s'.2.
Proof.
  induction 1 as [|s1 s2 s3 Hstep _ IH]; [done|]. intros Hwb. apply IH.
  destruct Hstep as [? ? [f w serviceName opts r f' w' Hcall]|f w w' Hpre]; simpl in *.
  - by eapply call_well_built.
  - intros s k c Hc. destruct (Hwb _ _ _ Hc) as (cls & Hcls & Hb).
    exists cls. split; [done|]. by eapply well_built_prefix.
Qed.

(** The instance a call returns, in the state the call leaves. *)
Lemma returned_instance_well_built copts w f1 w1 serviceName opts a f' w' :
  rtc quiet_step (createClientFactory copts w) (f1, w1) ->
  call f1 serviceName opts w1 = (Normal a, f', w') ->
  exists cls,
    class_of serviceName factories = Some cls /\
    well_built (truthy (opt_useGlobalConfigClock copts)) cls a w'.
Proof.
  intros Hreach Hcall.
  pose proof (quiet_steps_are_steps _ _ Hreach) as Hsteps.
  apply reachable_factory in Hsteps as (Hopts & _ & _).
  pose proof (quiet_steps_well_built _ _ Hreach) as Hinv. cbn [fst snd] in Hinv.
  assert (Hwb : instances_well_built f1 w1).
  { apply Hinv. intros s k c. unfold cached.
    rewrite createClientFactory_memoized.
    destruct (class_of s factories); simpl; [by rewrite lookup_empty|done]. }
  pose proof (call_well_built _ _ _ _ _ _ _ Hcall Hwb) as Hwb'.
  pose proof (call_spec _ _ _ _ _ _ _ Hcall) as (Ho & _ & _ & _ & _ & Hnew & _).
  destruct (Hwb' _ _ _ (Hnew a eq_refl)) as (cls & Hcls & Hb).
  exists cls. split; [done|]. by rewrite Ho, Hopts in Hb.
Qed.

(** *** Calls of the memoized functions *)

(** X1.  A call of a memoized function changes no object that existed
    before it, and not [AWS.config]: every existing object is found
    unchanged afterwards, reads the same [systemClockOffset], and is synced
    exactly if it was. *)
Theorem call_leaves_existing_objects f serviceName opts w r f' w' :
  call f serviceName opts w = (r, f', w') ->
  AWS_config w' = AWS_config w /\
  forall x o,
    heap w !! x = Some o ->
    heap w' !! x = Some o /\
    read_systemClockOffset x w' = read_systemClockOffset x w /\
    (synced x w <-> synced x w').
Proof.
  intros Hcall. pose proof (call_prefix _ _ _ _ _ _ _ Hcall) as Hpre.
  apply call_spec in Hcall as (_ & Hcfg & _). split; [done|].
  intros x o Ho. pose proof (prefix_lookup_Some _ _ _ _ Ho Hpre) as Ho'.
  split_and!; [done| |].
  - unfold read_systemClockOffset. by rewrite Ho, Ho', Hcfg.
  - unfold synced. rewrite Ho, Ho'. done.
Qed.


(** X3.  A failed construction is not memoized: the throwing call leaves
    the factory exactly as it was, so the next call with the same
    arguments invokes the constructor again, with the same merged options,
    and memoizes the instance if that attempt succeeds. *)
Theorem failed_construction_is_retried
    copts w f1 w1 serviceName cls opts e f' w' w2 r2 f2 w2' :
  rtc step (createClientFactory copts w) (f1, w1) ->
  class_of serviceName factories = Some cls ->
  call f1 serviceName opts w1 = (Throw e, f', w') ->
  call f' serviceName opts w2 = (r2, f2, w2') ->
  f' = f1 /\
  constructions w2' =
    constructions w2 ++ [(serviceName, merged_options copts opts)] /\
  (forall a, r2 = Normal a ->
             cached f2 serviceName (stableStringify opts) = Some a).
Proof.
  intros Hreach Hcls Hfail Hretry.
  apply reachable_factory in Hreach as (Hopts & Hnames & _).
  assert (Hsame : f' = f1 /\ cached f1 serviceName (stableStringify opts) = None).
  { destruct (call_cases _ _ _ _ _ _ _ Hfail)
      as [(a & _ & ? & _)|[(Hmiss & _ & _ & _)|(_ & -> & _ & [Hn|Hn])]];
      [done| | |congruence].
    - split; [|done].
      destruct (Hnames serviceName) as [_ [cache Hm]]; [by rewrite Hcls|].
      unfold cached in Hmiss. rewrite Hm in Hmiss. simpl in Hmiss.
      unfold call in Hfail. rewrite Hm, Hmiss in Hfail.
      destruct (construct _ _ _ _) as [[?|?] ?];
        [discriminate|by injection Hfail as _ <- _].
    - destruct (Hnames serviceName) as [_ [cache Hm]]; [by rewrite Hcls|].
      congruence. }
  destruct Hsame as [-> Hmiss]. split; [done|].
  pose proof (call_spec _ _ _ _ _ _ _ Hretry) as (_ & _ & _ & _ & _ & Hnew & _).
  split; [|done].
  apply call_cases in Hretry
    as [(a & ? & _)|[(_ & _ & _ & Hlog)|(_ & _ & _ & [Hn|Hn])]];
    [congruence| | |congruence].
  - by rewrite Hlog, Hopts.
  - destruct (Hnames serviceName) as [_ [cache Hm]]; [by rewrite Hcls|].
    congruence.
Qed.

(** X4.  Whatever instance a factory returns for a service name, at any
    moment, is an object of the class the [factories] table gives for the
    name; for ['documentclient'] it is a document client whose [service]
    is a DynamoDB service object. *)
Theorem returned_instance_has_table_class
    copts w f1 w1 serviceName opts a f' w' :
  rtc quiet_step (createClientFactory copts w) (f1, w1) ->
  call f1 serviceName opts w1 = (Normal a, f', w') ->
  exists cls o target,
    class_of serviceName factories = Some cls /\
    heap w' !! a = Some o /\
    obj_class o = cls /\
    service_of a w' = Some target /\
    obj_class target = (if decide (cls = DocumentClient) then DynamoDB else cls).
Proof.
  intros Hreach Hcall.
  destruct (returned_instance_well_built _ _ _ _ _ _ _ _ _ Hreach Hcall)
    as (cls & Hcls & o & target & Ho & Hc & Ht & Htc & _).
  by exists cls, o, target.
Qed.

(** X5.  With [useGlobalConfigClock] set, every instance the factory
    returns, at any moment, has the config object of its service synced
    (if the service has one): its [systemClockOffset] reads the
    process-wide offset and writes to it. *)
Theorem synced_factory_returns_synced_clients
    copts w f1 w1 serviceName opts a f' w' :
  opt_useGlobalConfigClock copts = Some true ->
  rtc quiet_step (createClientFactory copts w) (f1, w1) ->
  call f1 serviceName opts w1 = (Normal a, f', w') ->
  exists target,
    service_of a w' = Some target /\
    forall config,
      obj_config target = Some config ->
      synced config w' /\ shares_global_clock config w'.
Proof.
  intros Hflag Hreach Hcall.
  destruct (returned_instance_well_built _ _ _ _ _ _ _ _ _ Hreach Hcall)
    as (cls & Hcls & o & target & Ho & Hc & Ht & Htc & Hconfig).
  exists target. split; [done|]. intros config Hcfg.
  destruct (Hconfig _ Hcfg) as (c & Hlook & Hsync).
  assert (Hs : synced config w').
  { exists c. split; [done|]. apply Hsync. by rewrite Hflag. }
  split; [done|]. by apply synced_shares_global_clock.
Qed.

(** X6.  Without [useGlobalConfigClock], a client the factory constructs
    keeps the [systemClockOffset] its constructor gave it: the config
    object is not synced, reads that offset, and is not affected by a
    later change of the process-wide offset. *)
Theorem factory_without_flag_keeps_own_offset
    copts w f1 w1 serviceName cls opts offset :
  truthy (opt_useGlobalConfigClock copts) = false ->
  rtc step (createClientFactory copts w) (f1, w1) ->
  class_of serviceName factories = Some cls ->
  cached f1 serviceName (stableStringify opts) = None ->
  sdk_new cls (merged_options copts opts)
    (log_construction serviceName (merged_options copts opts) w1) =
    Builds (Some offset) ->
  exists a f' w' target config,
    call f1 serviceName opts w1 = (Normal a, f', w') /\
    service_of a w' = Some target /\
    obj_config target = Some config /\
    ~ synced config w' /\
    read_systemClockOffset config w' = offset /\
    forall value, read_systemClockOffset config (write_global_clock value w') = offset.
Proof.
  intros Hflag Hreach Hcls Hmiss Hsdk.
  apply reachable_factory in Hreach as (Hopts & Hnames & _).
  destruct (Hnames serviceName) as [_ [cache Hm]]; [by rewrite Hcls|].
  unfold cached in Hmiss. rewrite Hm in Hmiss. simpl in Hmiss.
  destruct (construct_builds copts _ _ opts w1 _ Hcls Hsdk)
    as (a & w' & Hcons & _ & (o & target & _ & _ & Ht & _) & Hshape).
  destruct (Hshape _ Ht) as (c & Hcfg & Hlook & Hclock).
  rewrite Hflag in Hclock.
  eexists a, _, w', target, _.
  rewrite (call_miss _ _ _ _ _ Hm Hmiss), Hopts, Hcons.
  split_and!; [reflexivity|done|done| | |].
  - intros (c' & Hlook' & Hacc). congruence.
  - unfold read_systemClockOffset. by rewrite Hlook, Hclock.
  - intros value. unfold read_systemClockOffset. simpl. by rewrite Hlook, Hclock.
Qed.

(** *** Two factories *)

Lemma factory_ok_mono f w w' :
  length (heap w) <= length (heap w') -> factory_ok f w -> factory_ok f w'.
Proof.
  intros Hlen Hok name cache Hname. destruct (Hok _ _ Hname) as [Hbound Hinj].
  split; [|done]. intros k r Hk. apply Hbound in Hk. lia.
Qed.

(** An instance memoized after a call was memoized before it, or is the
    object the call has just allocated. *)
Lemma call_cached_new f serviceName opts w r f' w' name key a :
  call f serviceName opts w = (r, f', w') ->
  cached f' name key = Some a ->
  cached f name key = Some a \/ (r = Normal a /\ length (heap w) <= a).
Proof.
  unfold call. destruct (memoized f !! serviceName) as [cache|] eqn:Hm;
    [|intros [= <- <- <-]; by left].
  destruct (cache !! stableStringify opts) eqn:Hk;
    [intros [= <- <- <-]; by left|].
  destruct (construct _ _ _ _) as [[client|e] w1] eqn:Hcons;
    intros [= <- <- <-]; [|by left].
  apply construct_spec in Hcons as (_ & _ & Hfresh & _).
  specialize (Hfresh client eq_refl).
  unfold cached. cbn [memoized].
  destruct (decide (serviceName = name)) as [<-|Hne].
  - rewrite lookup_insert_eq, Hm. simpl.
    destruct (decide (stableStringify opts = key)) as [<-|Hnk].
    + rewrite lookup_insert_eq. intros [= <-]. right. split; [done|lia].
    + rewrite lookup_insert_ne by done. by left.
  - rewrite lookup_insert_ne by done. by left.
Qed.

Lemma call_keeps_disjoint f g serviceName opts w r f' w' :
  call f serviceName opts w = (r, f', w') ->
  factory_ok g w ->
  disjoint_instances f g -> disjoint_instances f' g.
Proof.
  intros Hcall Hok Hdis s k a s' k' b Ha Hb.
  destruct (call_cached_new _ _ _ _ _ _ _ _ _ _ Hcall Ha) as [Hold|[_ Hfresh]].
  - by eapply Hdis.
  - unfold cached in Hb. destruct (memoized g !! s') as [cache|] eqn:Hm; [|done].
    simpl in Hb. destruct (Hok _ _ Hm) as [Hbound _]. apply Hbound in Hb. lia.
Qed.

Lemma disjoint_instances_sym f g : disjoint_instances f g -> disjoint_instances g f.
Proof. intros Hdis s k a s' k' b Ha Hb Heq. by eapply Hdis. Qed.

(** What two factories keep through every step: the invariants of their
    caches, their memoized instances, and that they share none. *)
Lemma pair_steps_spec x y :
  rtc pair_step x y ->
  factory_ok x.1.1 x.2 -> factory_ok x.1.2 x.2 ->
  disjoint_instances x.1.1 x.1.2 ->
  (factory_ok y.1.1 y.2 /\ factory_ok y.1.2 y.2 /\
   disjoint_instances y.1.1 y.1.2) /\
  (forall name k a, cached x.1.1 name k = Some a -> cached y.1.1 name k = Some a) /\
  (forall name k a, cached x.1.2 name k = Some a -> cached y.1.2 name k = Some a).
Proof.
  induction 1 as [x|x y z Hstep _ IH]; [done|]. intros Hf Hg Hdis.
  assert (Hy : (factory_ok y.1.1 y.2 /\ factory_ok y.1.2 y.2 /\
                disjoint_instances y.1.1 y.1.2) /\
               (forall name k a, cached x.1.1 name k = Some a ->
                                 cached y.1.1 name k = Some a) /\
               (forall name k a, cached x.1.2 name k = Some a ->
                                 cached y.1.2 name k = Some a)).
  { destruct Hstep as [f g w s opts r f' w' Hcall|f g w s opts r g' w' Hcall
                      |f g w w' Hlen]; cbn [fst snd] in *.
    - pose proof (call_spec _ _ _ _ _ _ _ Hcall) as (_ & _ & Hlen & _ & Hmono & _ & Hok).
      split_and!; auto.
      + by eapply factory_ok_mono.
      + by eapply call_keeps_disjoint.
    - pose proof (call_spec _ _ _ _ _ _ _ Hcall) as (_ & _ & Hlen & _ & Hmono & _ & Hok).
      split_and!; auto.
      + by eapply factory_ok_mono.
      + apply disjoint_instances_sym. eapply call_keeps_disjoint; [done..|].
        by apply disjoint_instances_sym.
    - split_and!; auto; by eapply factory_ok_mono. }
  destruct Hy as ((Hf' & Hg' & Hdis') & Hmf & Hmg).
  destruct (IH Hf' Hg' Hdis') as (Hinv & Hmf' & Hmg').
  split; [exact Hinv|]. split; auto.
Qed.

(** X7.  Memoization is per factory.  Take a factory [f] and a second
    factory [g] created later in the same process, and let both be used
    in any order.  An instance returned by [f] is different from every
    instance [g] has memoized so far, and from every instance [g] returns
    afterwards, whatever the service names and options. *)
Theorem factories_never_share_an_instance
    copts w f w1 copts' f1 g1 w2 serviceName A a f2 w3 f3 g3 w4
    serviceName' B b g4 w5 :
  rtc step (createClientFactory copts w) (f, w1) ->
  rtc pair_step
    (f, (createClientFactory copts' w1).1, (createClientFactory copts' w1).2)
    (f1, g1, w2) ->
  call f1 serviceName A w2 = (Normal a, f2, w3) ->
  (forall name key c, cached g1 name key = Some c -> a <> c) /\
  (rtc pair_step (f2, g1, w3) (f3, g3, w4) ->
   call g3 serviceName' B w4 = (Normal b, g4, w5) ->
   a <> b).
Proof.
  intros Hreach Hpair HA.
  apply reachable_factory in Hreach as (_ & _ & Hokf).
  destruct (pair_steps_spec _ _ Hpair) as ((Hf1 & Hg1 & Hdis1) & _ & _);
    cbn [fst snd].
  { done. }
  { apply createClientFactory_ok. }
  { intros s k x s' k' y _ Hy. unfold cached in Hy.
    rewrite createClientFactory_memoized in Hy.
    destruct (class_of s' factories); simpl in Hy; [by rewrite lookup_empty in Hy|done]. }
  cbn [fst snd] in *.
  assert (Hinv2 : factory_ok f2 w3 /\ factory_ok g1 w3 /\ disjoint_instances f2 g1).
  { pose proof (call_spec _ _ _ _ _ _ _ HA) as (_ & _ & Hlen & _ & _ & _ & Hok).
    split_and!; [auto|by eapply factory_ok_mono|by eapply call_keeps_disjoint]. }
  destruct Hinv2 as (Hf2 & Hg2 & Hdis2).
  pose proof (call_spec _ _ _ _ _ _ _ HA) as (_ & _ & _ & _ & _ & Hnew & _).
  specialize (Hnew a eq_refl).
  split.
  - intros name key c Hc. by eapply Hdis2.
  - intros Hlater HB.
    destruct (pair_steps_spec _ _ Hlater Hf2 Hg2 Hdis2)
      as ((Hf3 & Hg3 & Hdis3) & Hmf & _).
    cbn [fst snd] in *. apply Hmf in Hnew.
    pose proof (call_spec _ _ _ _ _ _ _ HB) as (_ & _ & _ & _ & _ & Hnewb & _).
    specialize (Hnewb b eq_refl).
    assert (Hdis4 : disjoint_instances g4 f3).
    { eapply call_keeps_disjoint; [done..|]. by apply disjoint_instances_sym. }
    intros ->. by eapply Hdis4.
Qed.

(** *** The cache object *)

(** X8.  The field [factory] of a cache object is the factory its getters
    call: an instance obtained by [cache.factory[name]()] is what every
    later read of [cache[name]] returns, without constructing anything,
    and the read records it in [instantiated]. *)
Theorem cache_factory_shares_memo_with_getters
    c1 w1 serviceName a c2 w2 c3 w3 :
  cache_factory_call c1 serviceName None w1 = (Normal a, c2, w2) ->
  rtc cache_step (c2, w2) (c3, w3) ->
  cache_get c3 serviceName w3 =
    (Normal (PClient a),
     {| factory := factory c3;
        instantiated := <[serviceName := a]> (instantiated c3) |},
     w3).
Proof.
  intros Hcall Hlater. unfold cache_factory_call in Hcall.
  destruct (call (factory c1) serviceName None w1) as [[r f1] w1'] eqn:Hc.
  injection Hcall as -> <- <-.
  apply call_spec in Hc as (_ & _ & _ & _ & _ & Hnew & _).
  specialize (Hnew a eq_refl). cbn [stableStringify] in Hnew.
  apply cache_steps_spec in Hlater as [Hsteps _]. cbn [fst snd factory] in Hsteps.
  apply steps_spec in Hsteps as (_ & _ & _ & Hmono & _). cbn [fst snd] in Hmono.
  apply Hmono in Hnew. unfold cache_get.
  assert (factory_has (factory c3) serviceName = true) as ->.
  { apply factory_has_spec. unfold cached in Hnew.
    by destruct (memoized (factory c3) !! serviceName). }
  by rewrite (call_hit _ _ None w3 a Hnew).
Qed.

(** X9.  At any moment of the life of a cache object, [instantiated] has
    entries only for service names, each entry is the instance the factory
    memoizes for the call without argument, and an entry, once made, is
    never changed or removed. *)
Theorem instantiated_records_memoized_instances
    copts w c1 w1 serviceName a c2 w2 :
  rtc cache_step (createClientCache copts w) (c1, w1) ->
  instantiated c1 !! serviceName = Some a ->
  rtc cache_step (c1, w1) (c2, w2) ->
  In serviceName serviceNames /\
  cached (factory c1) serviceName None = Some a /\
  instantiated c2 !! serviceName = Some a /\
  cached (factory c2) serviceName None = Some a.
Proof.
  intros Hreach Hentry Hlater.
  apply reachable_cache in Hreach as [Hsteps Hinst].
  apply reachable_factory in Hsteps as (_ & Hnames & _).
  pose proof (Hinst _ _ Hentry) as Hc.
  apply cache_steps_spec in Hlater as [_ Hkeep]. cbn [fst snd] in Hkeep.
  destruct (Hkeep Hinst) as [Hinst2 Hsame].
  split_and!; [|done|by apply Hsame|by apply Hinst2, Hsame].
  apply class_of_Some, Hnames. unfold cached in Hc.
  by destruct (memoized (factory c1) !! serviceName).
Qed.

(** *** Keys *)





(** *** Clock sync, again *)



Lemma memoized_instance_well_built copts w f1 w1 serviceName key a :
  rtc quiet_step (createClientFactory copts w) (f1, w1) ->
  cached f1 serviceName key = Some a ->
  exists cls,
    class_of serviceName factories = Some cls /\
    well_built (truthy (opt_useGlobalConfigClock copts)) cls a w1.
Proof.
  intros Hreach Ha.
  pose proof (quiet_steps_are_steps _ _ Hreach) as Hsteps.
  apply reachable_factory in Hsteps as (Hopts & _ & _).
  pose proof (quiet_steps_well_built _ _ Hreach) as Hinv. cbn [fst snd] in Hinv.
  destruct (Hinv) with (serviceName := serviceName) (key := key) (client := a)
    as (cls & Hcls & Hb); [|done|].
  - intros s k c. unfold cached. rewrite createClientFactory_memoized.
    destruct (class_of s factories); simpl; [by rewrite lookup_empty|done].
  - exists cls. split; [done|]. by rewrite Hopts in Hb.
Qed.

(** X13.  With [useGlobalConfigClock] set, all clients of the factory
    share one clock offset: for any two instances the factory has
    memoized, of any services, an offset written through the config of the
    one is the offset read through the config of the other. *)
Theorem synced_clients_share_one_offset
    copts w f1 w1 serviceName key a serviceName' key' b ta ca tb cb value :
  opt_useGlobalConfigClock copts = Some true ->
  rtc quiet_step (createClientFactory copts w) (f1, w1) ->
  cached f1 serviceName key = Some a ->
  cached f1 serviceName' key' = Some b ->
  service_of a w1 = Some ta -> obj_config ta = Some ca ->
  service_of b w1 = Some tb -> obj_config tb = Some cb ->
  read_systemClockOffset cb (write_systemClockOffset ca value w1) = value /\
  systemClockOffset (AWS_config (write_systemClockOffset ca value w1)) = value.
Proof.
  intros Hflag Hreach Ha Hb Hta Hca Htb Hcb.
  destruct (memoized_instance_well_built _ _ _ _ _ _ _ Hreach Ha)
    as (cls & _ & oa & ta' & _ & _ & Hta' & _ & Hconfa).
  destruct (memoized_instance_well_built _ _ _ _ _ _ _ Hreach Hb)
    as (cls' & _ & ob & tb' & _ & _ & Htb' & _ & Hconfb).
  assert (ta' = ta) as -> by congruence. assert (tb' = tb) as -> by congruence.
  rewrite Hflag in Hconfa, Hconfb.
  destruct (Hconfa _ Hca) as (c1 & Hl1 & Hs1).
  destruct (Hconfb _ Hcb) as (c2 & Hl2 & Hs2).
  assert (Hsa : synced ca w1) by (exists c1; auto).
  assert (Hsb : synced cb w1) by (exists c2; auto).
  destruct (synced_shares_global_clock _ _ Hsa) as (_ & Hshare).
  destruct (Hshare value) as (_ & Hglobal & Hothers). split; [|done].
  by apply Hothers.
Qed.

End Factory.

(** ** The claim about the constants *)

(** C8.  The list of regions has no duplicate entry and contains
    ['us-east-1']. *)
Theorem REGIONS_distinct_with_us_east_1 :
  List.NoDup Constants.REGIONS /\ In "us-east-1" Constants.REGIONS.
Proof.
  split.
  - apply NoDup_ListNoDup. by apply (bool_decide_unpack _).
  - by left.
Qed.


(** ** Examples: the theorems at concrete inputs *)

Lemma memoized_same_instance_iff_same_key_witness :
  let A := Some [("maxRetries", JNum 3); ("apiVersion", JStr "2012-08-10")] in
  let B := Some [("apiVersion", JStr "2012-08-10"); ("maxRetries", JNum 3)] in
  (1 = 1 <-> stableStringify A = stableStringify B) /\
  (stableStringify A <> stableStringify B -> 1 <> 1) /\
  (forall A' B', A = Some A' -> B = Some B' -> obj_wf A' -> A' ≡ₚ B' -> 1 = 1).
Proof.
  intros A B.
  eapply (memoized_same_instance_iff_same_key (Some "us-east-1") sample_sdk
            sample_opts empty_world _ _ "s3" A B).
  - apply rtc_refl.
  - vm_compute. reflexivity.
  - apply rtc_refl.
  - vm_compute. reflexivity.
Defined.

Lemma cache_entry_keyed_by_call_options_witness :
  let f0 := (createClientFactory None sample_opts empty_world).1 in
  let w0 := (createClientFactory None sample_opts empty_world).2 in
  let A := Some [("maxRetries", JNum 3)] in
  let B := Some [("logger", JFunction 0); ("maxRetries", JNum 3)] in
  let fa := (call None sample_sdk f0 "sqs" A w0).1.2 in
  let wa := (call None sample_sdk f0 "sqs" A w0).2 in
  cached fa "sqs" (stableStringify A) = Some 1 /\
  call None sample_sdk fa "sqs" B wa = (Normal 1, fa, wa).
Proof.
  intros f0 w0 A B fa wa.
  apply (cache_entry_keyed_by_call_options None sample_sdk f0 w0 "sqs" A 1 fa wa fa wa B).
  - vm_compute. reflexivity.
  - apply rtc_refl.
  - vm_compute. reflexivity.
Defined.



Lemma no_argument_and_empty_mapping_are_distinct_witness :
  let copts := sample_opts in
  let f0 := (createClientFactory None copts empty_world).1 in
  let w0 := (createClientFactory None copts empty_world).2 in
  let fa := (call None sample_sdk f0 "lambda" None w0).1.2 in
  let wa := (call None sample_sdk f0 "lambda" None w0).2 in
  let wb := (call None sample_sdk fa "lambda" (Some []) wa).2 in
  1 <> 3 /\
  merged_options None copts None = spread [] (defaults None copts) /\
  merged_options None copts (Some []) = spread [] (defaults None copts) /\
  (cached f0 "lambda" (stableStringify None) = None ->
   constructions wa =
     constructions w0 ++ [("lambda", spread [] (defaults None copts))]) /\
  (cached fa "lambda" (stableStringify (Some [])) = None ->
   constructions wb =
     constructions wa ++ [("lambda", spread [] (defaults None copts))]).
Proof.
  intros copts f0 w0 fa wa wb.
  apply (no_argument_and_empty_mapping_are_distinct None sample_sdk copts empty_world
           f0 w0 "lambda" None (Some []) 1 fa wa fa wa 3
           (call None sample_sdk fa "lambda" (Some []) wa).1.2 wb).
  - by left.
  - apply rtc_refl.
  - vm_compute. reflexivity.
  - apply rtc_refl.
  - vm_compute. reflexivity.
Defined.





(** ** Counterexamples *)

(** C2, as stated, fails.  With the defaults [{ region: 'eu-west-1' }],
    the calls [factory.s3({})] and [factory.s3({ region: 'eu-west-1' })]
    merge to the same configuration, whose serializations coincide, but
    their keys are ['{}'] and ['{"region":"eu-west-1"}']: the second call
    misses the cache, invokes the constructor again and returns another
    instance. *)
Lemma merged_configuration_is_not_the_cache_key :
  let copts := sample_opts in
  let f0 := (createClientFactory None copts empty_world).1 in
  let w0 := (createClientFactory None copts empty_world).2 in
  let A := Some [] in
  let B := Some [("region", JStr "eu-west-1")] in
  let fa := (call None sample_sdk f0 "s3" A w0).1.2 in
  let wa := (call None sample_sdk f0 "s3" A w0).2 in
  stableStringify (Some (merged_options None copts A)) =
    stableStringify (Some (merged_options None copts B)) /\
  stableStringify A <> stableStringify B /\
  (call None sample_sdk f0 "s3" A w0).1.1 = Normal 1 /\
  (call None sample_sdk fa "s3" B wa).1.1 = Normal 3 /\
  constructions (call None sample_sdk fa "s3" B wa).2 =
    [("s3", [("region", JStr "eu-west-1")]);
     ("s3", [("region", JStr "eu-west-1")])].
Proof. vm_compute. split_and!; [reflexivity|discriminate|reflexivity..]. Qed.


(** ** Examples: the further properties at concrete inputs *)

Lemma call_leaves_existing_objects_witness :
  let f0 := (createClientFactory None sample_opts clock_world).1 in
  let w0 := (createClientFactory None sample_opts clock_world).2 in
  let w' := (call None sample_sdk f0 "s3" None w0).2 in
  AWS_config w' = AWS_config w0 /\
  forall x o,
    heap w0 !! x = Some o ->
    heap w' !! x = Some o /\
    read_systemClockOffset x w' = read_systemClockOffset x w0 /\
    (synced x w0 <-> synced x w').
Proof.
  intros f0 w0 w'.
  apply (call_leaves_existing_objects None sample_sdk f0 "s3" None w0
           (Normal 6) (call None sample_sdk f0 "s3" None w0).1.2 w').
  vm_compute. reflexivity.
Defined.


Lemma failed_construction_is_retried_witness :
  let f0 := (createClientFactory None no_opts empty_world).1 in
  let w0 := (createClientFactory None no_opts empty_world).2 in
  let w' := (call None strict_sdk f0 "sts" None w0).2 in
  let f2 := (call None strict_sdk f0 "sts" None w').1.2 in
  let w2' := (call None strict_sdk f0 "sts" None w').2 in
  f0 = f0 /\
  constructions w2' = constructions w' ++ [("sts", merged_options None no_opts None)] /\
  (forall a,
     Throw (Thrown (JStr "ConfigError: Missing region in config")) = Normal a ->
     cached f2 "sts" (stableStringify None) = Some a).
Proof.
  intros f0 w0 w' f2 w2'.
  apply (failed_construction_is_retried None strict_sdk no_opts empty_world
           f0 w0 "sts" STS None
           (Thrown (JStr "ConfigError: Missing region in config")) f0 w' w').
  - apply rtc_refl.
  - reflexivity.
  - vm_compute. reflexivity.
  - vm_compute. reflexivity.
Defined.

Lemma returned_instance_has_table_class_witness :
  let f0 := (createClientFactory None sample_opts empty_world).1 in
  let w0 := (createClientFactory None sample_opts empty_world).2 in
  let w' := (call None sample_sdk f0 "documentclient" None w0).2 in
  exists cls o target,
    class_of "documentclient" factories = Some cls /\
    heap w' !! 2 = Some o /\
    obj_class o = cls /\
    service_of 2 w' = Some target /\
    obj_class target = (if decide (cls = DocumentClient) then DynamoDB else cls).
Proof.
  intros f0 w0 w'.
  apply (returned_instance_has_table_class None sample_sdk sample_opts empty_world
           f0 w0 "documentclient" None 2
           (call None sample_sdk f0 "documentclient" None w0).1.2 w').
  - apply rtc_refl.
  - vm_compute. reflexivity.
Defined.

Lemma synced_factory_returns_synced_clients_witness :
  let f0 := (createClientFactory None sample_opts clock_world).1 in
  let w0 := (createClientFactory None sample_opts clock_world).2 in
  let w' := (call None sample_sdk f0 "documentclient" (Some []) w0).2 in
  exists target,
    service_of 7 w' = Some target /\
    forall config,
      obj_config target = Some config ->
      synced config w' /\ shares_global_clock config w'.
Proof.
  intros f0 w0 w'.
  apply (synced_factory_returns_synced_clients None sample_sdk sample_opts clock_world
           f0 w0 "documentclient" (Some []) 7
           (call None sample_sdk f0 "documentclient" (Some []) w0).1.2 w').
  - reflexivity.
  - apply rtc_refl.
  - vm_compute. reflexivity.
Defined.

Lemma factory_without_flag_keeps_own_offset_witness :
  let f0 := (createClientFactory (Some "us-east-1") no_opts clock_world).1 in
  let w0 := (createClientFactory (Some "us-east-1") no_opts clock_world).2 in
  exists a f' w' target config,
    call (Some "us-east-1") sample_sdk f0 "xray" None w0 = (Normal a, f', w') /\
    service_of a w' = Some target /\
    obj_config target = Some config /\
    ~ synced config w' /\
    read_systemClockOffset config w' = JNum 0 /\
    forall value, read_systemClockOffset config (write_global_clock value w') = JNum 0.
Proof.
  intros f0 w0.
  apply (factory_without_flag_keeps_own_offset (Some "us-east-1") sample_sdk no_opts
           clock_world f0 w0 "xray" XRay None (JNum 0)).
  - reflexivity.
  - apply rtc_refl.
  - reflexivity.
  - vm_compute. reflexivity.
  - reflexivity.
Defined.

Lemma factories_never_share_an_instance_witness :
  let f := (createClientFactory None sample_opts empty_world).1 in
  let w1 := (createClientFactory None sample_opts empty_world).2 in
  let g := (createClientFactory None sample_opts w1).1 in
  let w2 := (createClientFactory None sample_opts w1).2 in
  let f2 := (call None sample_sdk f "s3" None w2).1.2 in
  let w3 := (call None sample_sdk f "s3" None w2).2 in
  (forall name key c, cached g name key = Some c -> 1 <> c) /\
  (rtc (pair_step None sample_sdk) (f2, g, w3) (f2, g, w3) ->
   call None sample_sdk g "s3" None w3 =
     (Normal 3, (call None sample_sdk g "s3" None w3).1.2,
      (call None sample_sdk g "s3" None w3).2) ->
   1 <> 3).
Proof.
  intros f w1 g w2 f2 w3.
  apply (factories_never_share_an_instance None sample_sdk sample_opts empty_world
           f w1 sample_opts f g w2 "s3" None 1 f2 w3 f2 g w3 "s3" None 3).
  - apply rtc_refl.
  - apply rtc_refl.
  - vm_compute. reflexivity.
Defined.

Lemma cache_factory_shares_memo_with_getters_witness :
  let c0 := (createClientCache None sample_opts empty_world).1 in
  let w0 := (createClientCache None sample_opts empty_world).2 in
  let c2 := (cache_factory_call None sample_sdk c0 "kms" None w0).1.2 in
  let w2 := (cache_factory_call None sample_sdk c0 "kms" None w0).2 in
  cache_get None sample_sdk c2 "kms" w2 =
    (Normal (PClient 1),
     {| factory := factory c2; instantiated := <["kms" := 1]> (instantiated c2) |},
     w2).
Proof.
  intros c0 w0 c2 w2.
  apply (cache_factory_shares_memo_with_getters None sample_sdk c0 w0 "kms" 1 c2 w2 c2 w2).
  - vm_compute. reflexivity.
  - apply rtc_refl.
Defined.

Lemma instantiated_records_memoized_instances_witness :
  let c0 := (createClientCache None sample_opts empty_world).1 in
  let w0 := (createClientCache None sample_opts empty_world).2 in
  let c1 := (cache_get None sample_sdk c0 "iot" w0).1.2 in
  let w1 := (cache_get None sample_sdk c0 "iot" w0).2 in
  In "iot" serviceNames /\
  cached (factory c1) "iot" None = Some 1 /\
  instantiated c1 !! "iot" = Some 1 /\
  cached (factory c1) "iot" None = Some 1.
Proof.
  intros c0 w0 c1 w1.
  apply (instantiated_records_memoized_instances None sample_sdk sample_opts empty_world
           c1 w1 "iot" 1 c1 w1).
  - apply rtc_once. apply (cache_step_get _ _ c0 w0 "iot" (Normal (PClient 1))).
    vm_compute. reflexivity.
  - vm_compute. reflexivity.
  - apply rtc_refl.
Defined.



Lemma synced_clients_share_one_offset_witness :
  let f0 := (createClientFactory None sample_opts empty_world).1 in
  let w0 := (createClientFactory None sample_opts empty_world).2 in
  let f1 := (call None sample_sdk f0 "s3" None w0).1.2 in
  let w1 := (call None sample_sdk f0 "s3" None w0).2 in
  let f2 := (call None sample_sdk f1 "documentclient" None w1).1.2 in
  let w2 := (call None sample_sdk f1 "documentclient" None w1).2 in
  read_systemClockOffset 2 (write_systemClockOffset 0 (JNum 42) w2) = JNum 42 /\
  systemClockOffset (AWS_config (write_systemClockOffset 0 (JNum 42) w2)) = JNum 42.
Proof.
  intros f0 w0 f1 w1 f2 w2.
  apply (synced_clients_share_one_offset None sample_sdk sample_opts empty_world
           f2 w2 "s3" None 1 "documentclient" None 4
           {| obj_class := S3; obj_service := None; obj_config := Some 0;
              obj_systemClockOffset := None |}
           0
           {| obj_class := DynamoDB; obj_service := None; obj_config := Some 2;
              obj_systemClockOffset := None |}
           2 (JNum 42)).
  - reflexivity.
  - eapply rtc_l; [apply quiet_call;
                   apply (call_step_intro _ _ f0 w0 "s3" None (Normal 1) f1 w1);
                   vm_compute; reflexivity|].
    apply rtc_once. apply quiet_call.
    apply (call_step_intro _ _ f1 w1 "documentclient" None (Normal 4) f2 w2).
    vm_compute. reflexivity.
  - vm_compute. reflexivity.
  - vm_compute. reflexivity.
  - vm_compute. reflexivity.
  - reflexivity.
  - vm_compute. reflexivity.
  - reflexivity.
Defined.
